(** * Orientation engine of aphrodite-d3: [src/utils/viewFrame.ts]

    A shallow embedding of the view-frame utilities: the fallback screen-angle
    conversion, the lock-frame lookup, the house locator, the rule triggers,
    the rule effects and the program evaluator, together with the properties
    the specification states about them.

    Numbers.  A JavaScript [number] that carries a longitude or an angle is
    modelled as an exact rational ([Q]); a number that carries a house number
    or a numeric planet index is modelled as an integer ([Z]).  Rounding of
    binary floating point is outside the model. *)

From Stdlib Require Import QArith Qround Qminmax Qabs Lqa.
From Stdlib Require Import Ascii DecimalString DecimalZ.
From stdpp Require Import gmap strings list sorting.

Local Open Scope Z_scope.

(** ** Numbers *)

(** [Math.trunc] on a rational: the integer part, rounded towards zero. *)
Definition Qtrunc (q : Q) : Z := Z.quot (Qnum q) (Z.pos (Qden q)).

(** The JavaScript remainder [a % n]: the result takes the sign of [a]. *)
Definition jsRem (a n : Q) : Q := (a - n * inject_Z (Qtrunc (a / n)))%Q.

(** Modelled from the spec: [normalizeDeg] is imported from
    [@gaia-tools/aphrodite-shared/orientation], which is not part of the
    sources.  Section 4.1 describes it as reducing any degree value into
    [0,360) "via modulo, handling negative inputs"; that is the usual
    [((deg % 360) + 360) % 360]. *)
Definition normalizeDeg (deg : Q) : Q := jsRem (jsRem deg 360 + 360) 360.

(** [const normalizeAngle = normalizeDeg;] *)
Definition normalizeAngle : Q -> Q := normalizeDeg.

(** Strict and non-strict comparisons of numbers, as booleans. *)
Definition Qltb (a b : Q) : bool := negb (Qle_bool b a).
Definition Qgeb (a b : Q) : bool := Qle_bool b a.

(** ** Identifiers *)

(** [number | string]: the identifier of a planet or of a chart element. *)
Inductive Ident : Type :=
  | IdNum (n : Z)
  | IdStr (s : string).

Global Instance Ident_eq_dec : EqDecision Ident.
Proof. solve_decision. Defined.

(** A house number as a template literal prints it: in decimal. *)
Definition showZ (n : Z) : string := NilZero.string_of_int (Z.to_int n).

(** [`${id}`] *)
Definition showIdent (i : Ident) : string :=
  match i with
  | IdNum n => showZ n
  | IdStr s => s
  end.

Abbreviation HouseNumber := Z (only parsing).
Abbreviation AngleType := string (only parsing).

(** ** Maps of the chart

    A JavaScript [Map] iterates in insertion order.  Where the code iterates a
    map ([entries()]), the map is the list of its entries in that order and
    [get] returns the first entry of the key. *)

Definition alist_get {K V : Type} `{EqDecision K} (k : K) (m : list (K * V)) : option V :=
  snd <$> List.find (fun e => bool_decide (fst e = k)) m.

(** [ChartSnapshot] and [ChartDataForOrientation] have the same three optional
    fields. *)
Record ChartSnapshot : Type := mkChart {
  planetLongitudes : option (list (Ident * Q));
  houseCusps : option (list (HouseNumber * Q));
  angleLongitudes : option (gmap AngleType Q)
}.

Abbreviation ChartDataForOrientation := ChartSnapshot (only parsing).

(** [chart.planetLongitudes?.get(id)] *)
Definition getPlanetLon (chart : ChartSnapshot) (id : Ident) : option Q :=
  m ← planetLongitudes chart; alist_get id m.

(** [chart.angleLongitudes?.get(angle)] *)
Definition getAngleLon (chart : ChartSnapshot) (angle : AngleType) : option Q :=
  m ← angleLongitudes chart; m !! angle.

(** ** House locator *)

(** An element of [sortedHouses]. *)
Record SortedHouse : Type := mkSortedHouse {
  houseNum : HouseNumber;
  cusp : Q
}.

(** [Array.prototype.sort] is stable; with the comparator [a.cusp - b.cusp]
    the sorted array is the stable arrangement by ascending cusp, which
    insertion from the right computes. *)
Fixpoint insertByCusp (x : SortedHouse) (l : list SortedHouse) : list SortedHouse :=
  match l with
  | [] => [x]
  | y :: ys =>
      if Qle_bool (cusp x) (cusp y) then x :: y :: ys
      else y :: insertByCusp x ys
  end.

Fixpoint sortByCusp (l : list SortedHouse) : list SortedHouse :=
  match l with
  | [] => []
  | x :: xs => insertByCusp x (sortByCusp xs)
  end.

(** The array [sortedHouses] of [getHouseForLongitude]. *)
Definition sortedHousesOf (houseCusps : list (HouseNumber * Q)) : list SortedHouse :=
  sortByCusp (List.map (fun e => mkSortedHouse (fst e) (normalizeAngle (snd e))) houseCusps).

(** The test of one loop iteration, on [current] and [next]. *)
Definition houseContains (normalizedLon : Q) (current next : SortedHouse) : bool :=
  if Qltb (cusp next) (cusp current)
  then Qgeb normalizedLon (cusp current) || Qltb normalizedLon (cusp next)
  else Qgeb normalizedLon (cusp current) && Qltb normalizedLon (cusp next).

(** The [for] loop from index [i], with [n] iterations left. *)
Fixpoint scanHouses (sortedHouses : list SortedHouse) (normalizedLon : Q)
    (i n : nat) : option HouseNumber :=
  match n with
  | O => None
  | S n' =>
      match sortedHouses !! i,
            sortedHouses !! ((i + 1) mod length sortedHouses)%nat with
      | Some current, Some next =>
          if houseContains normalizedLon current next
          then Some (houseNum current)
          else scanHouses sortedHouses normalizedLon (S i) n'
      | _, _ => scanHouses sortedHouses normalizedLon (S i) n'
      end
  end.

(** [getHouseForLongitude(longitude, houseCusps)]; [None] is [null]. *)
Definition getHouseForLongitude (longitude : Q)
    (houseCusps : list (HouseNumber * Q)) : option HouseNumber :=
  match houseCusps with
  | [] => None
  | _ =>
      let normalizedLon := normalizeAngle longitude in
      let sortedHouses := sortedHousesOf houseCusps in
      match scanHouses sortedHouses normalizedLon 0 (length sortedHouses) with
      | Some h => Some h
      | None => houseNum <$> head sortedHouses
      end
  end.

(** ** View frames, locks, rules and programs

    The types below are declared in [@gaia-tools/aphrodite-shared/orientation];
    they are given here with the fields that [viewFrame.ts] reads and writes. *)

(** What a [ViewFrame] pins to a screen angle: a discriminated kind and an
    identifier. *)
Inductive AnchorTargetUnion : Type :=
  | AnchorObject (objectId : Ident)
  | AnchorHouse (house : HouseNumber)
  | AnchorSign (sign : Z)
  | AnchorAngle (angle : AngleType).

(** [direction]: [1], [-1], ['cw'] or ['ccw']. *)
Inductive Direction : Type := DirPlus | DirMinus | DirCw | DirCcw.

Global Instance Direction_eq_dec : EqDecision Direction.
Proof. solve_decision. Defined.

Record ViewFrame : Type := mkViewFrame {
  anchor : AnchorTargetUnion;
  screenAngleDeg : Q;
  direction : Direction;
  worldZero : option Q;
  screenZero : option Q
}.

Inductive ElementType : Type := ElObject | ElHouse | ElSign | ElAngle.

Global Instance ElementType_eq_dec : EqDecision ElementType.
Proof. solve_decision. Defined.

Inductive LockFrame : Type := LockWorld | LockScreen | LockHouses | LockSigns.

Global Instance LockFrame_eq_dec : EqDecision LockFrame.
Proof. solve_decision. Defined.

(** A lock binds an element selector (type and identifier) to a frame. *)
Record LockRule : Type := mkLockRule {
  lockType : ElementType;
  lockId : Ident;
  frame : LockFrame
}.

Inductive Trigger : Type :=
  | AscLeavesHouse (house : HouseNumber)
  | PlanetCrossesHouse (planet : Ident) (house : HouseNumber)
  | PlanetCrossesAngle (planet : Ident) (angle : AngleType)
  | Custom.

Inductive Effect : Type :=
  | Rotate (delta : Q)
  | SetViewFrame (viewFrame : ViewFrame)
  | Mirror.

Record OrientationRule : Type := mkRule {
  id : string;
  trigger : Trigger;
  effect : Effect;
  ruleLocks : option (list LockRule)
}.

Record OrientationProgram : Type := mkProgram {
  baseFrame : ViewFrame;
  locks : option (list LockRule);
  rules : option (list OrientationRule)
}.

Record OrientationRuntimeState : Type := mkState {
  appliedRuleIds : gset string;
  previousHousePositions : option (gmap string HouseNumber)
}.

(** ** Anchor resolution and screen angles *)

Record AnchorLongitudeResolver : Type := mkResolver {
  getObjectLongitude : Ident -> option Q;
  getHouseCusp : HouseNumber -> option Q;
  getSignStart : Z -> Q;
  getAngleLongitude : AngleType -> option Q
}.

(** [createAnchorResolver(data)] *)
Definition createAnchorResolver (data : ChartDataForOrientation) : AnchorLongitudeResolver :=
  {| getObjectLongitude := fun objectId => getPlanetLon data objectId;
     getHouseCusp := fun houseNumber => m ← houseCusps data; alist_get houseNumber m;
     getSignStart := fun signNumber => inject_Z (signNumber * 30);
     getAngleLongitude := fun angleType => getAngleLon data angleType |}.

(** Modelled from the spec: [getAnchorLongitude] is imported from the shared
    orientation module.  Sections 3 and 4.2 describe an anchor as a reference
    to an object, a house cusp, a sign start or an angle, resolved by the
    lookup of its kind.  The functions of [viewFrame.ts] take the resolution
    function as a parameter; this one instantiates it. *)
Definition getAnchorLongitudeByKind (a : AnchorTargetUnion)
    (resolver : AnchorLongitudeResolver) : option Q :=
  match a with
  | AnchorObject o => getObjectLongitude resolver o
  | AnchorHouse h => getHouseCusp resolver h
  | AnchorSign s => Some (getSignStart resolver s)
  | AnchorAngle t => getAngleLongitude resolver t
  end.

(** Modelled from the spec: [lockRuleApplies] is imported from the shared
    orientation module.  Section 4.5 describes it as a structural match on
    type and identifier.  The functions of [viewFrame.ts] take the predicate
    as a parameter; this one instantiates it. *)
Definition lockRuleAppliesByMatch (lock : LockRule) (elementType : ElementType)
    (elementId : Ident) : bool :=
  bool_decide (lockType lock = elementType) && bool_decide (lockId lock = elementId).

Section Renderer.

(** The three functions imported from the shared orientation module whose
    bodies are not part of the sources. *)
Variable getAnchorLongitude : AnchorTargetUnion -> AnchorLongitudeResolver -> option Q.
Variable worldToScreenAngle : Q -> ViewFrame -> Q -> Q.
Variable lockRuleApplies : LockRule -> ElementType -> Ident -> bool.

(** [convertToScreenAngle(worldLongitude, viewFrame, chartData)] *)
Definition convertToScreenAngle (worldLongitude : Q) (viewFrame : ViewFrame)
    (chartData : ChartDataForOrientation) : Q :=
  let resolver := createAnchorResolver chartData in
  match getAnchorLongitude (anchor viewFrame) resolver with
  | None =>
      let offset := (screenAngleDeg viewFrame - 180)%Q in
      normalizeAngle (180 - worldLongitude + offset)%Q
  | Some anchorLongitude =>
      worldToScreenAngle worldLongitude viewFrame anchorLongitude
  end.

(** [shouldLockElement(elementType, elementId, locks)] *)
Definition shouldLockElement (elementType : ElementType) (elementId : Ident)
    (locks : list LockRule) : bool :=
  existsb (fun lock => lockRuleApplies lock elementType elementId) locks.

(** [getLockFrameForElement(elementType, elementId, locks)] *)
Definition getLockFrameForElement (elementType : ElementType) (elementId : Ident)
    (locks : list LockRule) : option LockFrame :=
  let applicableLock :=
    List.find (fun lock => lockRuleApplies lock elementType elementId) locks in
  frame <$> applicableLock.

(** [getEffectiveLongitude(worldLongitude, elementType, elementId, viewFrame,
    chartData, locks)] *)
Definition getEffectiveLongitude (worldLongitude : Q) (elementType : ElementType)
    (elementId : Ident) (viewFrame : ViewFrame)
    (chartData : ChartDataForOrientation) (locks : list LockRule) : Q :=
  match getLockFrameForElement elementType elementId locks with
  | None => worldLongitude
  | Some lockFrame =>
      if bool_decide (lockFrame = LockScreen) then
        let screenAngle := convertToScreenAngle worldLongitude viewFrame chartData in
        worldLongitude
      else if bool_decide (lockFrame = LockWorld) then
        worldLongitude
      else
        worldLongitude
  end.

End Renderer.

(** ** Triggers *)

(** The key [`ASC:${house}`] of [previousHousePositions]. *)
Definition ascKey (house : HouseNumber) : string := "ASC:" +:+ showZ house.

(** The key [`${planet}:${house}`] of [previousHousePositions]. *)
Definition planetKey (planet : Ident) (house : HouseNumber) : string :=
  showIdent planet +:+ ":" +:+ showZ house.

(** [state.previousHousePositions?.get(key)] *)
Definition getPrevHouse (state : OrientationRuntimeState) (key : string)
    : option HouseNumber :=
  m ← previousHousePositions state; m !! key.

(** [a === b] where [a] may be [null] or [undefined] and [b] is a number. *)
Definition strictEq (a : option HouseNumber) (b : HouseNumber) : bool :=
  bool_decide (a = Some b).

(** The orb test of [planetCrossesAngle]. *)
Definition withinOrb (planetLon angleLon : Q) : bool :=
  let orb := 1%Q in
  let diff := Qabs (normalizeDeg (planetLon - angleLon)) in
  let minDiff := Qmin diff (360 - diff) in
  Qle_bool minDiff orb.

(** [ruleTriggered(rule, chart, state)] *)
Definition ruleTriggered (rule : OrientationRule) (chart : ChartSnapshot)
    (state : OrientationRuntimeState) : bool :=
  match trigger rule with
  | AscLeavesHouse targetHouse =>
      match getAngleLon chart "ASC", houseCusps chart with
      | Some ascLon, Some cusps =>
          let currentHouse := getHouseForLongitude ascLon cusps in
          if bool_decide (id rule ∈ appliedRuleIds state) then false
          else
            let prevHouse := getPrevHouse state (ascKey targetHouse) in
            if strictEq currentHouse targetHouse
               && bool_decide (is_Some prevHouse)
               && negb (strictEq prevHouse targetHouse)
            then true
            else if strictEq prevHouse targetHouse
                    && negb (strictEq currentHouse targetHouse)
            then true
            else false
      | _, _ => false
      end
  | PlanetCrossesHouse planet targetHouse =>
      match getPlanetLon chart planet, houseCusps chart with
      | Some planetLon, Some cusps =>
          let currentHouse := getHouseForLongitude planetLon cusps in
          let prevHouse := getPrevHouse state (planetKey planet targetHouse) in
          if strictEq currentHouse targetHouse
             && negb (strictEq prevHouse targetHouse)
          then true
          else false
      | _, _ => false
      end
  | PlanetCrossesAngle planet angle =>
      match getPlanetLon chart planet, getAngleLon chart angle with
      | Some planetLon, Some angleLon => withinOrb planetLon angleLon
      | _, _ => false
      end
  | Custom => false
  end.

(** ** Effects *)

(** One iteration of the loop over [chart.planetLongitudes.entries()]. *)
Definition trackPlanet (cusps : list (HouseNumber * Q))
    (positions : gmap string HouseNumber) (entry : Ident * Q)
    : gmap string HouseNumber :=
  match getHouseForLongitude (snd entry) cusps with
  | Some house => <[planetKey (fst entry) house := house]> positions
  | None => positions
  end.

(** "Track current positions for next evaluation": the writes of [applyRule]
    to [newState.previousHousePositions]. *)
Definition trackPositions (chart : ChartSnapshot)
    (positions : gmap string HouseNumber) : gmap string HouseNumber :=
  match houseCusps chart with
  | Some cusps =>
      let positions1 :=
        match getAngleLon chart "ASC" with
        | Some ascLon =>
            match getHouseForLongitude ascLon cusps with
            | Some ascHouse => <[ascKey ascHouse := ascHouse]> positions
            | None => positions
            end
        | None => positions
        end in
      match planetLongitudes chart with
      | Some planets => fold_left (trackPlanet cusps) planets positions1
      | None => positions1
      end
  | None => positions
  end.

(** Whether a frame uses the new model: both zero points are set. *)
Definition newModel (f : ViewFrame) : bool :=
  bool_decide (is_Some (worldZero f)) && bool_decide (is_Some (screenZero f)).

(** The [switch (effect.type)] of [applyRule], on the copy [newFrame]. *)
Definition applyEffect (e : Effect) (newFrame : ViewFrame) : ViewFrame :=
  match e with
  | Rotate delta =>
      match worldZero newFrame, screenZero newFrame with
      | Some _, Some sz =>
          {| anchor := anchor newFrame;
             screenAngleDeg := screenAngleDeg newFrame;
             direction := direction newFrame;
             worldZero := worldZero newFrame;
             screenZero := Some (normalizeDeg (sz + delta)) |}
      | _, _ =>
          {| anchor := anchor newFrame;
             screenAngleDeg := normalizeDeg (screenAngleDeg newFrame + delta);
             direction := direction newFrame;
             worldZero := worldZero newFrame;
             screenZero := screenZero newFrame |}
      end
  | SetViewFrame viewFrame => viewFrame
  | Mirror =>
      let d :=
        if newModel newFrame
        then (if bool_decide (direction newFrame = DirMinus) then DirPlus else DirMinus)
        else (if bool_decide (direction newFrame = DirCw) then DirCcw else DirCw) in
      {| anchor := anchor newFrame;
         screenAngleDeg := screenAngleDeg newFrame;
         direction := d;
         worldZero := worldZero newFrame;
         screenZero := screenZero newFrame |}
  end.

Record ApplyResult : Type := mkApplyResult {
  res_frame : ViewFrame;
  res_extraLocks : list LockRule;
  res_newState : OrientationRuntimeState
}.

(** [applyRule(rule, frame, locks, chart, state)] *)
Definition applyRule (rule : OrientationRule) (frame : ViewFrame)
    (locks : list LockRule) (chart : ChartSnapshot)
    (state : OrientationRuntimeState) : ApplyResult :=
  let copied := default ∅ (previousHousePositions state) in
  let newState :=
    {| appliedRuleIds := appliedRuleIds state ∪ {[ id rule ]};
       previousHousePositions := Some (trackPositions chart copied) |} in
  {| res_frame := applyEffect (effect rule) frame;
     res_extraLocks := default [] (ruleLocks rule);
     res_newState := newState |}.

(** ** Program evaluation *)

Record EvalResult : Type := mkEvalResult {
  out_frame : ViewFrame;
  out_locks : list LockRule;
  out_state : OrientationRuntimeState
}.

(** The body of the loop of [evalOrientationProgram]; the accumulator holds
    [frame], [extraLocks] and [state]. *)
Definition evalStep (locks : list LockRule) (chart : ChartSnapshot)
    (acc : EvalResult) (rule : OrientationRule) : EvalResult :=
  if ruleTriggered rule chart (out_state acc) then
    let result := applyRule rule (out_frame acc) locks chart (out_state acc) in
    {| out_frame := res_frame result;
       out_locks := out_locks acc ++ res_extraLocks result;
       out_state := res_newState result |}
  else acc.

Definition emptyState : OrientationRuntimeState :=
  {| appliedRuleIds := ∅; previousHousePositions := Some ∅ |}.

(** The loop of [evalOrientationProgram] over a prefix [rs] of the rules. *)
Definition evalLoop (program : OrientationProgram) (chart : ChartSnapshot)
    (previousState : option OrientationRuntimeState)
    (rs : list OrientationRule) : EvalResult :=
  fold_left (evalStep (default [] (locks program)) chart) rs
    {| out_frame := baseFrame program;
       out_locks := [];
       out_state := default emptyState previousState |}.

(** [evalOrientationProgram(program, chart, previousState)] *)
Definition evalOrientationProgram (program : OrientationProgram)
    (chart : ChartSnapshot) (previousState : option OrientationRuntimeState)
    : EvalResult :=
  let r := evalLoop program chart previousState (default [] (rules program)) in
  {| out_frame := out_frame r;
     out_locks := default [] (locks program) ++ out_locks r;
     out_state := out_state r |}.

(** The rule at position [i] fires during the evaluation: its trigger holds
    in the state the loop has reached after the [i] rules before it. *)
Definition firesAt (program : OrientationProgram) (chart : ChartSnapshot)
    (previousState : option OrientationRuntimeState) (i : nat) : bool :=
  match default [] (rules program) !! i with
  | Some rule =>
      ruleTriggered rule chart
        (out_state (evalLoop program chart previousState
                      (take i (default [] (rules program)))))
  | None => false
  end.

(** ** Notions used in the statements and proofs *)

(** The order in which [sortedHouses] is arranged. *)
Definition cuspLe (a b : SortedHouse) : Prop := (cusp a <= cusp b)%Q.

(** The triggers that detect a house transition. *)
Definition edgeTriggered (t : Trigger) : bool :=
  match t with
  | AscLeavesHouse _ | PlanetCrossesHouse _ _ => true
  | PlanetCrossesAngle _ _ | Custom => false
  end.

(** A string in which no colon occurs. *)
Definition colonFree (s : string) : Prop :=
  forall t u, s <> t +:+ String ":"%char u.

(** ** The specification's wording of three conditions *)

(** The angular distance as the specification words it: "the minimum of
    |a - b| mod 360 and 360 minus it". *)
Definition angularDistance (a b : Q) : Q :=
  let d := jsRem (Qabs (a - b)) 360 in
  Qmin d (360 - d).

(** "The snapshot lacks the data a trigger needs": the planet's longitude,
    the angle's longitude or the house cusps that the trigger reads are
    absent.  A longitude is absent when its map is undefined or has no entry
    for the planet or angle; the house cusps are absent when the cusp map is
    undefined or has no entry at all.  A custom trigger reads nothing. *)
Definition lacksTriggerData (t : Trigger) (chart : ChartSnapshot) : Prop :=
  match t with
  | AscLeavesHouse _ =>
      getAngleLon chart "ASC" = None
      \/ houseCusps chart = None \/ houseCusps chart = Some []
  | PlanetCrossesHouse planet _ =>
      getPlanetLon chart planet = None
      \/ houseCusps chart = None \/ houseCusps chart = Some []
  | PlanetCrossesAngle planet angle =>
      getPlanetLon chart planet = None \/ getAngleLon chart angle = None
  | Custom => False
  end.

(** The rotation effect as the specification states it: the zero point that
    is rotated is [screenZero] whenever the frame has one, and
    [screenAngleDeg] otherwise.  [F'] is the frame after the effect. *)
Definition rotatesZeroPointAsStated (F : ViewFrame) (delta : Q) (F' : ViewFrame) : Prop :=
  match screenZero F with
  | Some sz => exists z, screenZero F' = Some z /\ (z == normalizeDeg (sz + delta))%Q
  | None => (screenAngleDeg F' == normalizeDeg (screenAngleDeg F + delta))%Q
  end.

(** ** Concrete inputs

    The charts, frames, locks and rules that the examples below evaluate. *)

(** A frame anchored on the ASC, in the legacy encoding. *)
Definition frameAscLeft : ViewFrame :=
  {| anchor := AnchorAngle "ASC"; screenAngleDeg := 180; direction := DirCcw;
     worldZero := None; screenZero := None |}.

(** A chart with none of its three maps. *)
Definition chartNoData : ChartSnapshot :=
  {| planetLongitudes := None; houseCusps := None; angleLongitudes := None |}.

Definition lockSunScreen : LockRule :=
  {| lockType := ElObject; lockId := IdStr "sun"; frame := LockScreen |}.
Definition lockSunWorld : LockRule :=
  {| lockType := ElObject; lockId := IdStr "sun"; frame := LockWorld |}.
Definition lockMoonHouses : LockRule :=
  {| lockType := ElObject; lockId := IdStr "moon"; frame := LockHouses |}.

(** A rule that rotates by 30 degrees when mars crosses the ASC. *)
Definition ruleMarsAsc : OrientationRule :=
  {| id := "mars-asc"; trigger := PlanetCrossesAngle (IdStr "mars") "ASC";
     effect := Rotate 30; ruleLocks := None |}.

(** A chart with the ASC at 10 degrees and mars at [lon]. *)
Definition chartMarsAt (lon : Q) : ChartSnapshot :=
  {| planetLongitudes := Some [(IdStr "mars", lon)];
     houseCusps := None;
     angleLongitudes := Some {[ "ASC" := 10%Q ]} |}.

(** A frame that has a [screenZero] and no [worldZero]. *)
Definition frameScreenZeroOnly : ViewFrame :=
  {| anchor := AnchorAngle "ASC"; screenAngleDeg := 180; direction := DirCcw;
     worldZero := None; screenZero := Some 10%Q |}.

(** A frame in the new model: both zero points are set. *)
Definition frameNewModel : ViewFrame :=
  {| anchor := AnchorAngle "ASC"; screenAngleDeg := 180; direction := DirPlus;
     worldZero := Some 0%Q; screenZero := Some 350%Q |}.

(** Rules with the other three triggers. *)
Definition ruleAscLeaves1 : OrientationRule :=
  {| id := "asc-leaves-1"; trigger := AscLeavesHouse 1;
     effect := Mirror; ruleLocks := None |}.

Definition ruleMarsEnters2 : OrientationRule :=
  {| id := "mars-enters-2"; trigger := PlanetCrossesHouse (IdStr "mars") 2;
     effect := Rotate 30; ruleLocks := Some [lockSunScreen] |}.

Definition ruleCustom : OrientationRule :=
  {| id := "custom"; trigger := Custom; effect := Mirror; ruleLocks := None |}.

(** A state in which no rule has been applied and the house recorded for the
    ASC under the key ["ASC:1"] is [h]. *)
Definition stateAscRecorded (h : HouseNumber) : OrientationRuntimeState :=
  {| appliedRuleIds := ∅; previousHousePositions := Some {[ "ASC:1" := h ]} |}.

(** The cusps of twelve equal houses starting at 0 degrees. *)
Definition evenCusps : list (HouseNumber * Q) :=
  List.map (fun k => (Z.of_nat k + 1, inject_Z (30 * Z.of_nat k))) (seq 0 12).

(** A chart with the twelve equal houses, the ASC at [asc] and mars at
    [mars]. *)
Definition chartEven (asc mars : Q) : ChartSnapshot :=
  {| planetLongitudes := Some [(IdStr "mars", mars)];
     houseCusps := Some evenCusps;
     angleLongitudes := Some {[ "ASC" := asc ]} |}.

(** A program whose rules are the four rules above. *)
Definition programAll : OrientationProgram :=
  {| baseFrame := frameAscLeft;
     locks := Some [lockMoonHouses];
     rules := Some [ruleCustom; ruleMarsEnters2; ruleAscLeaves1; ruleMarsAsc] |}.

(** A chart whose cusp map is present and empty. *)
Definition chartEmptyCusps : ChartSnapshot :=
  {| planetLongitudes := None; houseCusps := Some [];
     angleLongitudes := Some {[ "ASC" := 15%Q ]} |}.


(** ** Chart data from render data

    [HouseData], [PlanetData] and [RenderData] are declared in
    [src/types/index.ts]; they are given here with the fields that
    [buildChartDataFromRenderData] reads. *)

Record HouseData : Type := mkHouseData {
  house : Z;
  cuspDegree : Q
}.

Record PlanetData : Type := mkPlanetData {
  planet : Z;
  degree : Q
}.

Record RenderData : Type := mkRenderData {
  houses : option (list HouseData);
  planets : option (list PlanetData)
}.

(** [map.set(k, v)]: the value of an existing key is replaced in place, a new
    key is appended. *)
Fixpoint alist_set {K V : Type} `{EqDecision K} (k : K) (v : V) (m : list (K * V))
    : list (K * V) :=
  match m with
  | [] => [(k, v)]
  | e :: rest =>
      if bool_decide (fst e = k) then (k, v) :: rest
      else e :: alist_set k v rest
  end.

(** [((house.house + 1) % 12) || 12]: the house number of a house index. *)
Definition houseNumberOfIndex (index : Z) : HouseNumber :=
  let r := Z.rem (index + 1) 12 in
  if r =? 0 then 12 else r.

(** The map [angleLongitudes] that [buildChartDataFromRenderData] fills from
    the houses. *)
Definition anglesOfHouses (hs : list HouseData) : gmap AngleType Q :=
  match hs with
  | [] => ∅
  | _ =>
      let house1 := List.find (fun h => house h =? 0) hs in
      let house10 := List.find (fun h => house h =? 9) hs in
      let angles1 :=
        match house1 with
        | Some h1 =>
            <["DESC" := jsRem (cuspDegree h1 + 180) 360]>
              (<["ASC" := cuspDegree h1]> ∅)
        | None => ∅
        end in
      match house10 with
      | Some h10 =>
          <["IC" := jsRem (cuspDegree h10 + 180) 360]>
            (<["MC" := cuspDegree h10]> angles1)
      | None => angles1
      end
  end.

(** [buildChartDataFromRenderData(renderData)] *)
Definition buildChartDataFromRenderData (renderData : RenderData)
    : ChartDataForOrientation :=
  let planetLongitudes :=
    match planets renderData with
    | Some ps =>
        fold_left (fun m p => alist_set (IdNum (planet p)) (degree p) m) ps []
    | None => []
    end in
  let houseCusps :=
    match houses renderData with
    | Some hs =>
        fold_left
          (fun m h => alist_set (houseNumberOfIndex (house h)) (cuspDegree h) m)
          hs []
    | None => []
    end in
  let angleLongitudes :=
    match houses renderData with
    | Some hs => anglesOfHouses hs
    | None => ∅
    end in
  {| planetLongitudes := Some planetLongitudes;
     houseCusps := Some houseCusps;
     angleLongitudes := Some angleLongitudes |}.

(** ** Notions used in the further statements and proofs *)

(** The loop of [getHouseForLongitude] as a recursion over the rest of
    [sortedHouses]; [first] is [sortedHouses[0]], the [next] of the last
    element. *)
Fixpoint scanFrom (first : SortedHouse) (normalizedLon : Q)
    (l : list SortedHouse) : option HouseNumber :=
  match l with
  | [] => None
  | current :: rest =>
      if houseContains normalizedLon current (default first (head rest))
      then Some (houseNum current)
      else scanFrom first normalizedLon rest
  end.

(** [s] is the element of [sorted] that precedes the longitude [L] on the
    circle: its cusp is the greatest cusp not above [L], or, when every cusp
    is above [L], the greatest cusp of all. *)
Definition circularPredecessor (L : Q) (sorted : list SortedHouse)
    (s : SortedHouse) : Prop :=
  s ∈ sorted /\
  (((cusp s <= L)%Q /\
    forall e, e ∈ sorted -> (cusp e <= L)%Q -> (cusp e <= cusp s)%Q)
   \/ ((L < cusp s)%Q /\
       forall e, e ∈ sorted -> (L < cusp e)%Q /\ (cusp e <= cusp s)%Q)).

(** The rules that fire during the loop of [evalOrientationProgram], in the
    order in which they fire. *)
Fixpoint firedRules (locks : list LockRule) (chart : ChartSnapshot)
    (acc : EvalResult) (rs : list OrientationRule) : list OrientationRule :=
  match rs with
  | [] => []
  | rule :: rest =>
      if ruleTriggered rule chart (out_state acc)
      then rule :: firedRules locks chart (evalStep locks chart acc rule) rest
      else firedRules locks chart acc rest
  end.

(** The rules that fire during [evalOrientationProgram(program, chart,
    previousState)]. *)
Definition firedIn (program : OrientationProgram) (chart : ChartSnapshot)
    (previousState : option OrientationRuntimeState) : list OrientationRule :=
  firedRules (default [] (locks program)) chart
    {| out_frame := baseFrame program; out_locks := [];
       out_state := default emptyState previousState |}
    (default [] (rules program)).

(** The state after evaluating the program on each snapshot of [charts] in
    turn, every evaluation starting from the state the one before returned. *)
Definition evalSequence (program : OrientationProgram)
    (charts : list ChartSnapshot)
    (previousState : option OrientationRuntimeState)
    : option OrientationRuntimeState :=
  fold_left
    (fun st chart => Some (out_state (evalOrientationProgram program chart st)))
    charts previousState.

(** Every recorded house is stored under a key that ends in a colon and the
    decimal form of that house. *)
Definition wellKeyed (state : OrientationRuntimeState) : Prop :=
  forall key h, getPrevHouse state key = Some h ->
    exists subject, key = (subject +:+ ":" +:+ showZ h)%string.

(** The house entries of render data are well formed: the indices are
    pairwise different and lie between 0 and 11. *)
Definition wellFormedHouses (hs : list HouseData) : Prop :=
  NoDup (house <$> hs) /\ Forall (fun h => 0 <= house h <= 11) hs.

(** What a state holds once an edge-triggered rule has fired: the rule's
    identifier among the applied rules for [ascLeavesHouse], the rule's house
    recorded under the rule's key for [planetCrossesHouse]. *)
Definition firedBefore (rule : OrientationRule) (state : OrientationRuntimeState) : Prop :=
  match trigger rule with
  | AscLeavesHouse _ => id rule ∈ appliedRuleIds state
  | PlanetCrossesHouse planet target =>
      getPrevHouse state (planetKey planet target) = Some target
  | PlanetCrossesAngle _ _ | Custom => False
  end.

(** A chart that [buildChartDataFromRenderData] returns for render data whose
    house indices are pairwise different and lie between 0 and 11 and whose
    cusps are pairwise different modulo 360. *)
Definition builtFromWellFormed (chart : ChartSnapshot) : Prop :=
  exists renderData,
    chart = buildChartDataFromRenderData renderData /\
    forall hs, houses renderData = Some hs ->
      wellFormedHouses hs /\
      forall x y, x ∈ hs -> y ∈ hs ->
        (normalizeDeg (cuspDegree x) == normalizeDeg (cuspDegree y))%Q -> x = y.

(** No house other than house 1 is recorded for the ASC. *)
Definition ascOnlyInHouseOne (state : OrientationRuntimeState) : Prop :=
  forall h v, getPrevHouse state (ascKey h) = Some v -> h = 1.

(** The writes of [applyRule] to the recorded positions, in the order in
    which it makes them: the ASC first, then the planets in map order. *)
Definition positionWrites (chart : ChartSnapshot) : list (string * HouseNumber) :=
  match houseCusps chart with
  | Some cusps =>
      match getAngleLon chart "ASC" with
      | Some ascLon =>
          match getHouseForLongitude ascLon cusps with
          | Some ascHouse => [(ascKey ascHouse, ascHouse)]
          | None => []
          end
      | None => []
      end
      ++ match planetLongitudes chart with
         | Some planets =>
             omap (fun e => (fun h => (planetKey (fst e) h, h))
                              <$> getHouseForLongitude (snd e) cusps) planets
         | None => []
         end
  | None => []
  end.

(** One write to the recorded positions. *)
Definition insertWrite (m : gmap string HouseNumber) (kv : string * HouseNumber)
    : gmap string HouseNumber :=
  <[fst kv := snd kv]> m.

(** The current house of every planet of the snapshot is recorded in the
    state. *)
Definition planetsRecorded (chart : ChartSnapshot) (state : OrientationRuntimeState) : Prop :=
  forall p lon cusps h,
    getPlanetLon chart p = Some lon ->
    houseCusps chart = Some cusps ->
    getHouseForLongitude lon cusps = Some h ->
    getPrevHouse state (planetKey p h) = Some h.

(** ** Further concrete inputs *)

(** Render data with twelve houses whose first cusp is at 100 degrees, given
    from the last house to the first, and with three planets, two of which
    have the same index. *)
Definition renderTwelve : RenderData :=
  {| houses :=
       Some (List.map
               (fun k => mkHouseData (11 - Z.of_nat k)
                           (inject_Z ((100 + 30 * (11 - Z.of_nat k)) mod 360)))
               (seq 0 12));
     planets :=
       Some [mkPlanetData 4 10; mkPlanetData 7 99; mkPlanetData 4 250] |}.

(** The same houses turned by 120 degrees, with the planets moved. *)
Definition renderShifted : RenderData :=
  {| houses :=
       Some (List.map
               (fun k => mkHouseData (Z.of_nat k)
                           (inject_Z ((220 + 30 * Z.of_nat k) mod 360)))
               (seq 0 12));
     planets := Some [mkPlanetData 4 300; mkPlanetData 7 15] |}.

Definition ruleSevenEnters12 : OrientationRule :=
  {| id := "seven-enters-12"; trigger := PlanetCrossesHouse (IdNum 7) 12;
     effect := Rotate 30; ruleLocks := None |}.

Definition ruleAscLeaves2 : OrientationRule :=
  {| id := "asc-leaves-2"; trigger := AscLeavesHouse 2;
     effect := Mirror; ruleLocks := None |}.

(** A rule that rotates by 60 degrees. *)
Definition ruleSixty : OrientationRule :=
  {| id := "sixty"; trigger := Custom; effect := Rotate (30 + 30); ruleLocks := None |}.

(** A rule that replaces the frame, and a program in which it comes after
    a rotation on the same trigger. *)
Definition ruleSetFrame : OrientationRule :=
  {| id := "set-frame"; trigger := PlanetCrossesAngle (IdStr "mars") "ASC";
     effect := SetViewFrame frameNewModel; ruleLocks := Some [lockSunWorld] |}.

Definition programSetFrame : OrientationProgram :=
  {| baseFrame := frameAscLeft; locks := None;
     rules := Some [ruleMarsAsc; ruleSetFrame] |}.

(** Two [planetCrossesHouse] rules, for mars entering house 2 and for the
    numeric planet 7 entering house 4. *)
Definition ruleSevenEnters4 : OrientationRule :=
  {| id := "seven-enters-4"; trigger := PlanetCrossesHouse (IdNum 7) 4;
     effect := Mirror; ruleLocks := None |}.

Definition programTwoEntries : OrientationProgram :=
  {| baseFrame := frameAscLeft; locks := None;
     rules := Some [ruleMarsEnters2; ruleSevenEnters4] |}.

(** A chart with the twelve equal houses, mars in house 2 and planet 7 in
    house 4. *)
Definition chartTwoPlanets : ChartSnapshot :=
  {| planetLongitudes := Some [(IdStr "mars", 40%Q); (IdNum 7, 100%Q)];
     houseCusps := Some evenCusps;
     angleLongitudes := Some {[ "ASC" := 15%Q ]} |}.

(** A program over numeric planet indices: planet 7 entering house 12, and
    the ASC leaving house 1 or house 2. *)
Definition programBuilt : OrientationProgram :=
  {| baseFrame := frameAscLeft;
     locks := None;
     rules := Some [ruleSevenEnters12; ruleAscLeaves1; ruleAscLeaves2] |}.

(** Render data without a house of index 0. *)
Definition renderNoFirstHouse : RenderData :=
  {| houses := Some [mkHouseData 9 270; mkHouseData 3 80];
     planets := None |}.

(** * Properties *)

(** ** Normalization *)

Section Normalize.

Local Open Scope Q_scope.

Lemma Qtrunc_nonneg (q : Q) : 0 <= q -> Qtrunc q = Qfloor q.
Proof.
  destruct q as [n d]. unfold Qle, Qtrunc, Qfloor. simpl. intros H.
  apply Z.quot_div_nonneg; lia.
Qed.

Lemma Qtrunc_nonpos (q : Q) : q <= 0 -> Qtrunc q = (- Qfloor (- q))%Z.
Proof.
  destruct q as [n d]. unfold Qle, Qtrunc, Qfloor, Qopp. simpl. intros H.
  rewrite <- (Z.quot_div_nonneg (- n) (Z.pos d)) by lia.
  rewrite Z.quot_opp_l by lia. lia.
Qed.

Lemma jsRem_360_nonneg (a : Q) : 0 <= a -> 0 <= jsRem a 360 /\ jsRem a 360 < 360.
Proof.
  intros Ha. unfold jsRem.
  assert (Hq : 0 <= a / 360) by (apply Qle_shift_div_l; lra).
  rewrite (Qtrunc_nonneg _ Hq).
  pose proof (Qfloor_le (a / 360)) as Hlo.
  pose proof (Qlt_floor (a / 360)) as Hhi.
  rewrite inject_Z_plus in Hhi. change (inject_Z 1) with 1 in Hhi.
  assert (Ha360 : a == 360 * (a / 360)) by field.
  set (t := inject_Z (Qfloor (a / 360))) in *.
  set (q := a / 360) in *.
  split; lra.
Qed.

Lemma jsRem_360_bounds (a : Q) : - (360) < jsRem a 360 /\ jsRem a 360 < 360.
Proof.
  destruct (Qlt_le_dec a 0) as [Hneg | Hpos].
  - unfold jsRem.
    assert (Hq : a / 360 <= 0) by (apply Qle_shift_div_r; lra).
    rewrite (Qtrunc_nonpos _ Hq).
    pose proof (Qfloor_le (- (a / 360))) as Hlo.
    pose proof (Qlt_floor (- (a / 360))) as Hhi.
    rewrite inject_Z_plus in Hhi. change (inject_Z 1) with 1 in Hhi.
    rewrite inject_Z_opp.
    assert (Ha360 : a == 360 * (a / 360)) by field.
    set (t := inject_Z (Qfloor (- (a / 360)))) in *.
    set (q := a / 360) in *.
    split; lra.
  - destruct (jsRem_360_nonneg a Hpos). split; lra.
Qed.

(** [normalizeDeg] lands in [0,360). *)
Lemma normalizeDeg_range (deg : Q) : 0 <= normalizeDeg deg /\ normalizeDeg deg < 360.
Proof.
  unfold normalizeDeg. apply jsRem_360_nonneg.
  destruct (jsRem_360_bounds deg). lra.
Qed.

Lemma inject_Z_small (k : Z) : - (1) < inject_Z k -> inject_Z k < 1 -> k = 0%Z.
Proof. unfold Qlt, inject_Z. simpl. lia. Qed.

Lemma inject_Z_zero_or_one (k : Z) :
  0 <= inject_Z k -> inject_Z k < 2 -> k = 0%Z \/ k = 1%Z.
Proof. unfold Qlt, Qle, inject_Z. simpl. lia. Qed.

(** [normalizeDeg] against the remainder of the absolute value: they agree,
    or add up to 360, or are both zero. *)
Lemma normalizeDeg_vs_abs (d : Q) :
  let n := normalizeDeg d in
  let m := jsRem (Qabs d) 360 in
  (0 <= m /\ m < 360) /\ (n == m \/ n == 360 - m).
Proof.
  intros n m.
  pose proof (normalizeDeg_range d) as Hn. fold n in Hn.
  pose proof (jsRem_360_nonneg (Qabs d) (Qabs_nonneg d)) as Hm. fold m in Hm.
  split; [exact Hm |].
  set (k1 := Qtrunc (d / 360)).
  set (k2 := Qtrunc ((jsRem d 360 + 360) / 360)).
  set (k3 := Qtrunc (Qabs d / 360)).
  assert (En : n == d - 360 * inject_Z k1 + 360 - 360 * inject_Z k2).
  { unfold n, normalizeDeg. unfold jsRem at 1. fold k2. unfold jsRem. fold k1. lra. }
  assert (Em : m == Qabs d - 360 * inject_Z k3) by (unfold m, jsRem; fold k3; lra).
  destruct (Qlt_le_dec d 0) as [Hneg | Hpos].
  - assert (Ha : Qabs d == - d) by (apply Qabs_neg; lra).
    assert (Ek : 360 * inject_Z (1 - k1 - k2 - k3) == n + m).
    { unfold Z.sub. rewrite !inject_Z_plus, !inject_Z_opp.
      change (inject_Z 1) with 1. lra. }
    destruct (inject_Z_zero_or_one (1 - k1 - k2 - k3)) as [Hk | Hk]; [lra | lra | |];
      rewrite Hk in Ek.
    + change (inject_Z 0) with 0 in Ek. left. lra.
    + change (inject_Z 1) with 1 in Ek. right. lra.
  - assert (Ha : Qabs d == d) by (apply Qabs_pos; lra).
    assert (Ek : 360 * inject_Z (1 - k1 - k2 + k3) == n - m).
    { unfold Z.sub. rewrite !inject_Z_plus, !inject_Z_opp.
      change (inject_Z 1) with 1. lra. }
    assert (Hk : (1 - k1 - k2 + k3 = 0)%Z) by (apply inject_Z_small; lra).
    rewrite Hk in Ek. change (inject_Z 0) with 0 in Ek. left. lra.
Qed.

End Normalize.

(** ** Screen angles and locks *)

(** C3: when the anchor of the frame cannot be resolved from the chart data,
    the screen-angle conversion of a world longitude [W] is exactly
    [normalize (180 - W + (screenAngleDeg - 180))]; the conversion is a total
    function, so nothing is thrown, and the result lies in [0,360). *)
Theorem convertToScreenAngle_unresolved_anchor
    (getAnchorLongitude : AnchorTargetUnion -> AnchorLongitudeResolver -> option Q)
    (worldToScreenAngle : Q -> ViewFrame -> Q -> Q)
    (W : Q) (viewFrame : ViewFrame) (chartData : ChartDataForOrientation) :
  getAnchorLongitude (anchor viewFrame) (createAnchorResolver chartData) = None ->
  convertToScreenAngle getAnchorLongitude worldToScreenAngle W viewFrame chartData
    = normalizeDeg (180 - W + (screenAngleDeg viewFrame - 180))%Q
  /\ (0 <= convertToScreenAngle getAnchorLongitude worldToScreenAngle W viewFrame chartData)%Q
  /\ (convertToScreenAngle getAnchorLongitude worldToScreenAngle W viewFrame chartData < 360)%Q.
Proof.
  intros Hnone. unfold convertToScreenAngle. rewrite Hnone. cbv zeta.
  unfold normalizeAngle. split; [reflexivity | apply normalizeDeg_range].
Qed.

Lemma convertToScreenAngle_unresolved_anchor_witness :
  let conv := convertToScreenAngle getAnchorLongitudeByKind (fun w _ _ => w) in
  conv 10%Q frameAscLeft chartNoData
    = normalizeDeg (180 - 10 + (screenAngleDeg frameAscLeft - 180))%Q
  /\ (0 <= conv 10%Q frameAscLeft chartNoData)%Q
  /\ (conv 10%Q frameAscLeft chartNoData < 360)%Q.
Proof.
  exact (convertToScreenAngle_unresolved_anchor getAnchorLongitudeByKind
           (fun w _ _ => w) 10%Q frameAscLeft chartNoData eq_refl).
Defined.

Section LockLookup.

Variable applies : LockRule -> bool.

Lemma find_first_match (pre post : list LockRule) (r : LockRule) :
  Forall (fun lock => applies lock = false) pre ->
  applies r = true ->
  List.find applies (pre ++ r :: post) = Some r.
Proof.
  induction 1 as [| x pre Hx Hpre IH]; intros Hr; simpl.
  - now rewrite Hr.
  - rewrite Hx. now apply IH.
Qed.

Lemma find_no_match (locks : list LockRule) :
  List.find applies locks = None <-> Forall (fun lock => applies lock = false) locks.
Proof.
  induction locks as [| x locks IH]; simpl.
  - split; [constructor | reflexivity].
  - destruct (applies x) eqn:Hx.
    + split; [discriminate | intros H; apply Forall_cons in H as [H _]; congruence].
    + rewrite IH. split; [now constructor | intros H; now apply Forall_cons in H as [_ H]].
Qed.

End LockLookup.

(** C8: the lock-frame lookup returns the frame of the first rule, in list
    order, that matches the element, and nothing exactly when no rule
    matches; of two matching rules at the head of the list, the first one
    decides and the second is shadowed. *)
Theorem getLockFrameForElement_first_match
    (lockRuleApplies : LockRule -> ElementType -> Ident -> bool)
    (elementType : ElementType) (elementId : Ident) (locks : list LockRule) :
  (forall pre r post,
      locks = pre ++ r :: post ->
      Forall (fun lock => lockRuleApplies lock elementType elementId = false) pre ->
      lockRuleApplies r elementType elementId = true ->
      getLockFrameForElement lockRuleApplies elementType elementId locks = Some (frame r))
  /\ (getLockFrameForElement lockRuleApplies elementType elementId locks = None
      <-> Forall (fun lock => lockRuleApplies lock elementType elementId = false) locks)
  /\ (forall r1 r2 rest,
      locks = r1 :: r2 :: rest ->
      lockRuleApplies r1 elementType elementId = true ->
      lockRuleApplies r2 elementType elementId = true ->
      getLockFrameForElement lockRuleApplies elementType elementId locks = Some (frame r1)).
Proof.
  unfold getLockFrameForElement. split; [| split].
  - intros pre r post -> Hpre Hr.
    now rewrite (find_first_match _ pre post r Hpre Hr).
  - rewrite <- (find_no_match (fun lock => lockRuleApplies lock elementType elementId)).
    destruct (List.find _ locks); simpl; split; congruence.
  - intros r1 r2 rest -> H1 _. simpl. now rewrite H1.
Qed.

Lemma getLockFrameForElement_first_match_witness :
  getLockFrameForElement lockRuleAppliesByMatch ElObject (IdStr "sun")
    [lockMoonHouses; lockSunScreen; lockSunWorld] = Some LockScreen
  /\ getLockFrameForElement lockRuleAppliesByMatch ElObject (IdStr "sun")
       [lockSunWorld; lockSunScreen] = Some LockWorld.
Proof.
  split.
  - apply (proj1 (getLockFrameForElement_first_match lockRuleAppliesByMatch
                    ElObject (IdStr "sun") [lockMoonHouses; lockSunScreen; lockSunWorld])
             [lockMoonHouses] lockSunScreen [lockSunWorld]).
    + reflexivity.
    + repeat constructor.
    + reflexivity.
  - apply (proj2 (proj2 (getLockFrameForElement_first_match lockRuleAppliesByMatch
                    ElObject (IdStr "sun") [lockSunWorld; lockSunScreen]))
             lockSunWorld lockSunScreen []); reflexivity.
Defined.

(** C10: the effective longitude of an element is its world longitude,
    whatever lock applies to it: the unlocked case and the [screen], [world],
    [houses] and [signs] branches all return the input unchanged. *)
Theorem getEffectiveLongitude_is_world_longitude
    (getAnchorLongitude : AnchorTargetUnion -> AnchorLongitudeResolver -> option Q)
    (worldToScreenAngle : Q -> ViewFrame -> Q -> Q)
    (lockRuleApplies : LockRule -> ElementType -> Ident -> bool)
    (worldLongitude : Q) (elementType : ElementType) (elementId : Ident)
    (viewFrame : ViewFrame) (chartData : ChartDataForOrientation)
    (locks : list LockRule) :
  getEffectiveLongitude getAnchorLongitude worldToScreenAngle lockRuleApplies
    worldLongitude elementType elementId viewFrame chartData locks = worldLongitude.
Proof.
  unfold getEffectiveLongitude.
  destruct (getLockFrameForElement lockRuleApplies elementType elementId locks)
    as [[| | |] |]; reflexivity.
Qed.

(** ** House locator *)

Lemma elem_of_insertByCusp (x a : SortedHouse) (l : list SortedHouse) :
  x ∈ insertByCusp a l <-> x = a \/ x ∈ l.
Proof.
  induction l as [| y ys IH]; simpl.
  - rewrite list_elem_of_singleton, elem_of_nil. tauto.
  - destruct (Qle_bool (cusp a) (cusp y)).
    + rewrite !elem_of_cons. tauto.
    + rewrite !elem_of_cons, IH. tauto.
Qed.

Lemma elem_of_sortByCusp (x : SortedHouse) (l : list SortedHouse) :
  x ∈ sortByCusp l <-> x ∈ l.
Proof.
  induction l as [| a l IH]; simpl; [reflexivity |].
  rewrite elem_of_insertByCusp, elem_of_cons, IH. reflexivity.
Qed.

(** Every house of [sortedHouses] is a key of the cusp map. *)
Lemma sortedHousesOf_houseNum (s : SortedHouse) (m : list (HouseNumber * Q)) :
  s ∈ sortedHousesOf m -> houseNum s ∈ m.*1.
Proof.
  unfold sortedHousesOf. rewrite elem_of_sortByCusp.
  rewrite list_elem_of_In, in_map_iff. intros [[h c] [<- Hin]]. simpl.
  apply list_elem_of_In in Hin. apply list_elem_of_fmap. exists (h, c). auto.
Qed.

Lemma sortedHousesOf_nonempty (m : list (HouseNumber * Q)) :
  m <> [] -> sortedHousesOf m <> [].
Proof.
  destruct m as [| e m]; [congruence |]. intros _ Hnil.
  assert (H : mkSortedHouse (fst e) (normalizeAngle (snd e)) ∈ sortedHousesOf (e :: m)).
  { unfold sortedHousesOf. rewrite elem_of_sortByCusp. simpl. left. }
  rewrite Hnil in H. inversion H.
Qed.

Lemma insertByCusp_Permutation (a : SortedHouse) (l : list SortedHouse) :
  insertByCusp a l ≡ₚ a :: l.
Proof.
  induction l as [| y ys IH]; simpl; [reflexivity |].
  destruct (Qle_bool (cusp a) (cusp y)); [reflexivity |].
  rewrite IH. apply perm_swap.
Qed.

Lemma sortByCusp_Permutation (l : list SortedHouse) : sortByCusp l ≡ₚ l.
Proof.
  induction l as [| a l IH]; simpl; [reflexivity |].
  now rewrite insertByCusp_Permutation, IH.
Qed.

Lemma insertByCusp_sorted (a : SortedHouse) (l : list SortedHouse) :
  StronglySorted cuspLe l -> StronglySorted cuspLe (insertByCusp a l).
Proof.
  induction 1 as [| y ys Hys IH Hy]; simpl.
  - repeat constructor.
  - destruct (Qle_bool (cusp a) (cusp y)) eqn:Hle.
    + apply Qle_bool_iff in Hle. constructor; [now constructor |].
      constructor; [exact Hle |].
      eapply Forall_impl; [exact Hy |]. unfold cuspLe. intros z Hz. simpl in Hz.
      now apply Qle_trans with (cusp y).
    + constructor; [exact IH |].
      assert (Hya : cuspLe y a).
      { unfold cuspLe. destruct (Qlt_le_dec (cusp y) (cusp a)) as [Hlt | Hge].
        - now apply Qlt_le_weak.
        - rewrite (proj2 (Qle_bool_iff _ _) Hge) in Hle. discriminate. }
      rewrite (insertByCusp_Permutation a ys). now constructor.
Qed.

Lemma sortByCusp_sorted (l : list SortedHouse) : StronglySorted cuspLe (sortByCusp l).
Proof.
  induction l as [| a l IH]; simpl; [constructor | now apply insertByCusp_sorted].
Qed.

(** The twelve even cusps are pairwise different. *)
Lemma evenCusps_distinct (x1 x2 : SortedHouse) :
  x1 ∈ sortedHousesOf evenCusps -> x2 ∈ sortedHousesOf evenCusps ->
  cuspLe x1 x2 -> cuspLe x2 x1 -> x1 = x2.
Proof.
  unfold cuspLe. intros H1 H2.
  assert (Hall : Forall (fun a => Forall (fun b =>
            Qle_bool (cusp a) (cusp b) && Qle_bool (cusp b) (cusp a) = true ->
            houseNum a = houseNum b /\ cusp a = cusp b)
            (sortedHousesOf evenCusps)) (sortedHousesOf evenCusps)).
  { vm_compute sortedHousesOf.
    repeat (apply Forall_cons; split; [| try apply Forall_nil_2]);
      try (intros _; split; reflexivity); vm_compute; discriminate. }
  rewrite Forall_forall in Hall. specialize (Hall x1 H1).
  rewrite Forall_forall in Hall. specialize (Hall x2 H2).
  intros Hle Hge.
  destruct Hall as [Hn Hc].
  - apply andb_true_iff. split; now apply Qle_bool_iff.
  - destruct x1, x2; simpl in *; congruence.
Qed.

(** The sorted array does not depend on the insertion order of the map. *)
Lemma sortedHousesOf_evenCusps (cusps : list (HouseNumber * Q)) :
  cusps ≡ₚ evenCusps -> sortedHousesOf cusps = sortedHousesOf evenCusps.
Proof.
  intros Hperm.
  assert (Hp : sortedHousesOf cusps ≡ₚ sortedHousesOf evenCusps).
  { unfold sortedHousesOf. rewrite !sortByCusp_Permutation.
    now apply Permutation_map. }
  apply (StronglySorted_unique_strong cuspLe);
    [| apply sortByCusp_sorted | apply sortByCusp_sorted | exact Hp].
  intros x1 x2 H1 H2. rewrite Hp in H1. now apply evenCusps_distinct.
Qed.

(** The house locator reads a non-empty map only through [sortedHouses]. *)
Lemma getHouseForLongitude_sortedHouses (longitude : Q) (c1 c2 : list (HouseNumber * Q)) :
  c1 <> [] -> c2 <> [] -> sortedHousesOf c1 = sortedHousesOf c2 ->
  getHouseForLongitude longitude c1 = getHouseForLongitude longitude c2.
Proof.
  destruct c1 as [| e1 c1], c2 as [| e2 c2]; try congruence.
  intros _ _ Hs. unfold getHouseForLongitude. rewrite Hs. reflexivity.
Qed.

Lemma getHouseForLongitude_evenCusps (longitude : Q) (cusps : list (HouseNumber * Q)) :
  cusps ≡ₚ evenCusps ->
  getHouseForLongitude longitude cusps = getHouseForLongitude longitude evenCusps.
Proof.
  intros Hperm. apply getHouseForLongitude_sortedHouses.
  - intros ->. now apply Permutation_nil in Hperm.
  - discriminate.
  - now apply sortedHousesOf_evenCusps.
Qed.

(** C6: for the cusp map that sends the houses 1 to 12 to the longitudes
    0, 30, ..., 330, in whatever order its entries were inserted, longitude 15
    lies in house 1, longitude 359 in house 12 and longitude 0 in house 1. *)
Theorem getHouseForLongitude_even_cusps (cusps : list (HouseNumber * Q)) :
  cusps ≡ₚ evenCusps ->
  getHouseForLongitude 15 cusps = Some 1
  /\ getHouseForLongitude 359 cusps = Some 12
  /\ getHouseForLongitude 0 cusps = Some 1.
Proof.
  intros Hperm. rewrite !(getHouseForLongitude_evenCusps _ cusps Hperm).
  split; [| split]; vm_compute; exact eq_refl.
Qed.

Lemma getHouseForLongitude_even_cusps_witness :
  (getHouseForLongitude 15 evenCusps = Some 1
   /\ getHouseForLongitude 359 evenCusps = Some 12
   /\ getHouseForLongitude 0 evenCusps = Some 1)
  /\ (getHouseForLongitude 15 (rev evenCusps) = Some 1
      /\ getHouseForLongitude 359 (rev evenCusps) = Some 12
      /\ getHouseForLongitude 0 (rev evenCusps) = Some 1).
Proof.
  split.
  - apply (getHouseForLongitude_even_cusps evenCusps). reflexivity.
  - apply (getHouseForLongitude_even_cusps (rev evenCusps)).
    symmetry. apply Permutation_rev.
Defined.

(** The loop only ever returns the house of an element of the array. *)
Lemma scanHouses_houseNum (sorted : list SortedHouse) (lon : Q) (n i : nat) (h : HouseNumber) :
  scanHouses sorted lon i n = Some h -> exists s, s ∈ sorted /\ houseNum s = h.
Proof.
  revert i. induction n as [| n IH]; intros i; simpl; [discriminate |].
  destruct (sorted !! i) as [current |] eqn:Hcur; [| apply IH].
  destruct (sorted !! ((i + 1) mod length sorted)%nat) as [next |]; [| apply IH].
  destruct (houseContains lon current next); [| apply IH].
  intros [= <-]. exists current. split; [| reflexivity].
  apply list_elem_of_lookup. eauto.
Qed.

(** C7: the house locator is a total function; it returns the not-found
    value exactly for the empty cusp map, and for a non-empty cusp map, well
    formed or not, it returns a house number that is a key of the map. *)
Theorem getHouseForLongitude_total (longitude : Q) (cusps : list (HouseNumber * Q)) :
  (getHouseForLongitude longitude cusps = None <-> cusps = [])
  /\ (cusps <> [] ->
      exists h, getHouseForLongitude longitude cusps = Some h /\ h ∈ cusps.*1).
Proof.
  assert (Hsome : cusps <> [] ->
    exists h, getHouseForLongitude longitude cusps = Some h /\ h ∈ cusps.*1).
  { intros Hne. pose proof (sortedHousesOf_nonempty cusps Hne) as Hsorted.
    unfold getHouseForLongitude. destruct cusps as [| e m]; [congruence |].
    cbv zeta.
    destruct (scanHouses _ _ _ _) as [h |] eqn:Hscan.
    - exists h. split; [reflexivity |].
      apply scanHouses_houseNum in Hscan as [s [Hs <-]].
      now apply sortedHousesOf_houseNum.
    - destruct (sortedHousesOf (e :: m)) as [| s0 rest] eqn:Hs; [congruence |].
      exists (houseNum s0). split; [reflexivity |].
      apply sortedHousesOf_houseNum. rewrite Hs. left. }
  split; [| exact Hsome].
  split.
  - intros Hnone. destruct cusps as [| e m]; [reflexivity |].
    destruct Hsome as [h [Hh _]]; congruence.
  - intros ->. reflexivity.
Qed.

Lemma getHouseForLongitude_total_witness :
  exists h, getHouseForLongitude 100 [(7, 200%Q); (3, 200%Q); (9, 20%Q)] = Some h
            /\ h ∈ [(7, 200%Q); (3, 200%Q); (9, 20%Q)].*1.
Proof.
  apply (proj2 (getHouseForLongitude_total 100 [(7, 200%Q); (3, 200%Q); (9, 20%Q)])).
  discriminate.
Defined.

(** ** Triggers *)

(** The orb test of the code is the test of the specification's angular
    distance against 1. *)
Lemma withinOrb_angularDistance (P A : Q) :
  withinOrb P A = true <-> (angularDistance P A <= 1)%Q.
Proof.
  unfold withinOrb, angularDistance. cbv zeta. rewrite Qle_bool_iff.
  destruct (normalizeDeg_vs_abs (P - A)%Q) as [Hm Hnm]. cbv zeta in Hm, Hnm.
  pose proof (normalizeDeg_range (P - A)%Q) as Hn.
  assert (Habs : (Qabs (normalizeDeg (P - A)) == normalizeDeg (P - A))%Q)
    by (apply Qabs_pos; tauto).
  set (n := normalizeDeg (P - A)%Q) in *.
  set (m := jsRem (Qabs (P - A)) 360) in *.
  set (a := Qabs n) in *.
  destruct (Q.min_spec a (360 - a)%Q) as [[H1 E1] | [H1 E1]];
    destruct (Q.min_spec m (360 - m)%Q) as [[H2 E2] | [H2 E2]];
    rewrite E1, E2; destruct Hnm as [Hnm | Hnm]; split; intros; lra.
Qed.

(** C4: for a rule whose trigger is [planetCrossesAngle], on a snapshot that
    has the planet's longitude [P] and the angle's longitude [A], the trigger
    fires exactly when the angular distance between [P] and [A] (the minimum
    of |P - A| mod 360 and 360 minus it) is at most 1. *)
Theorem planetCrossesAngle_fires_iff_within_orb
    (rule : OrientationRule) (chart : ChartSnapshot)
    (state : OrientationRuntimeState) (planet : Ident) (angle : AngleType) (P A : Q) :
  trigger rule = PlanetCrossesAngle planet angle ->
  getPlanetLon chart planet = Some P ->
  getAngleLon chart angle = Some A ->
  (ruleTriggered rule chart state = true <-> (angularDistance P A <= 1)%Q).
Proof.
  intros Ht HP HA. unfold ruleTriggered. rewrite Ht, HP, HA.
  apply withinOrb_angularDistance.
Qed.

(** At distance exactly 1.0 the trigger fires; at distance 1.01 it does not. *)
Lemma planetCrossesAngle_fires_iff_within_orb_witness :
  ruleTriggered ruleMarsAsc (chartMarsAt 11) emptyState = true
  /\ ruleTriggered ruleMarsAsc (chartMarsAt (1101 # 100)) emptyState <> true.
Proof.
  split.
  - apply (planetCrossesAngle_fires_iff_within_orb ruleMarsAsc (chartMarsAt 11)
             emptyState (IdStr "mars") "ASC" 11 10 eq_refl eq_refl eq_refl).
    vm_compute. discriminate.
  - intros H.
    apply (planetCrossesAngle_fires_iff_within_orb ruleMarsAsc
             (chartMarsAt (1101 # 100)) emptyState (IdStr "mars") "ASC"
             (1101 # 100) 10 eq_refl eq_refl eq_refl) in H.
    vm_compute in H. apply H. reflexivity.
Defined.

(** Where missing data keeps a trigger from firing: every case of missing
    data but one, an [ascLeavesHouse] trigger on a snapshot that has the ASC
    and a cusp map that is present and empty. *)
Lemma ruleTriggered_missing_data_guarded
    (rule : OrientationRule) (chart : ChartSnapshot) (state : OrientationRuntimeState) :
  lacksTriggerData (trigger rule) chart ->
  (forall h, trigger rule = AscLeavesHouse h ->
     getAngleLon chart "ASC" = None \/ houseCusps chart = None) ->
  ruleTriggered rule chart state = false.
Proof.
  unfold ruleTriggered.
  destruct (trigger rule) as [h | p h | p a |]; simpl; intros Hlack Hasc.
  - destruct (Hasc h eq_refl) as [H | H]; rewrite H; [reflexivity |].
    now destruct (getAngleLon chart "ASC").
  - destruct Hlack as [H | [H | H]]; rewrite H; try reflexivity.
    + now destruct (getPlanetLon chart p).
    + now destruct (getPlanetLon chart p).
  - destruct Hlack as [H | H]; rewrite H; [reflexivity |].
    now destruct (getPlanetLon chart p).
  - reflexivity.
Qed.

Lemma ruleTriggered_custom
    (rule : OrientationRule) (chart : ChartSnapshot) (state : OrientationRuntimeState) :
  trigger rule = Custom -> ruleTriggered rule chart state = false.
Proof. unfold ruleTriggered. intros ->. reflexivity. Qed.

Example ruleTriggered_missing_data_examples :
  ruleTriggered ruleAscLeaves1 chartNoData (stateAscRecorded 1) = false
  /\ ruleTriggered ruleMarsEnters2 chartNoData emptyState = false
  /\ ruleTriggered ruleMarsEnters2 chartEmptyCusps emptyState = false
  /\ ruleTriggered ruleMarsAsc chartNoData emptyState = false
  /\ ruleTriggered ruleCustom (chartEven 15 40) emptyState = false.
Proof.
  repeat apply conj.
  - apply ruleTriggered_missing_data_guarded; [left; reflexivity |].
    intros h _. left. reflexivity.
  - apply ruleTriggered_missing_data_guarded; [left; reflexivity | discriminate].
  - apply ruleTriggered_missing_data_guarded; [left; reflexivity | discriminate].
  - apply ruleTriggered_missing_data_guarded; [left; reflexivity | discriminate].
  - now apply ruleTriggered_custom.
Qed.

(** C9: the trigger evaluated where the claim says it must not fire.  The
    snapshot has the ASC at 15 degrees and a cusp map that is present and
    empty, so the house cusps that the [ascLeavesHouse] trigger needs are
    absent and the house locator finds no house for the ASC; the rule has not
    been applied and the house recorded under ["ASC:1"] is 1, the house of
    the rule.  The trigger fires. *)
Theorem ascLeavesHouse_fires_without_cusps :
  trigger ruleAscLeaves1 = AscLeavesHouse 1
  /\ houseCusps chartEmptyCusps = Some []
  /\ lacksTriggerData (trigger ruleAscLeaves1) chartEmptyCusps
  /\ getAngleLon chartEmptyCusps "ASC" = Some 15%Q
  /\ getHouseForLongitude 15 [] = None
  /\ getPrevHouse (stateAscRecorded 1) "ASC:1" = Some 1
  /\ ruleTriggered ruleAscLeaves1 chartEmptyCusps (stateAscRecorded 1) = true.
Proof.
  split; [reflexivity |]. split; [reflexivity |].
  split; [right; right; reflexivity |]. split; [reflexivity |].
  split; [reflexivity |]. split; [reflexivity |].
  vm_compute. exact eq_refl.
Qed.

(** The two paths of the [ascLeavesHouse] trigger, for a snapshot that has
    the ASC and the cusps and a rule that has not been applied. *)
Lemma ascLeavesHouse_paths (rule : OrientationRule) (chart : ChartSnapshot)
    (state : OrientationRuntimeState) (target : HouseNumber) (ascLon : Q)
    (cusps : list (HouseNumber * Q)) :
  trigger rule = AscLeavesHouse target ->
  getAngleLon chart "ASC" = Some ascLon ->
  houseCusps chart = Some cusps ->
  id rule ∉ appliedRuleIds state ->
  let currentHouse := getHouseForLongitude ascLon cusps in
  let prevHouse := getPrevHouse state (ascKey target) in
  (currentHouse <> Some target ->
     (ruleTriggered rule chart state = true <-> prevHouse = Some target))
  /\ (currentHouse = Some target ->
     (ruleTriggered rule chart state = true <->
      exists p, prevHouse = Some p /\ p <> target)).
Proof.
  intros Ht Hasc Hcusps Hid. cbv zeta. unfold ruleTriggered.
  rewrite Ht, Hasc, Hcusps. cbv zeta.
  rewrite (bool_decide_eq_false_2 _ Hid). unfold strictEq.
  destruct (getPrevHouse state (ascKey target)) as [p |] eqn:Hprev;
    split; intros Hcur; repeat case_bool_decide; simpl;
    try (exfalso; eauto; fail);
    try match goal with H : is_Some None |- _ => destruct H; discriminate end;
    (split; [intros Hfire | intros Hprev']);
    try discriminate; try reflexivity; try congruence;
    try (destruct Hprev' as [q [Hq1 Hq2]]; congruence);
    try (exists p; split; congruence).
Qed.

(** On a snapshot that has the ASC and a cusp map that is present and
    empty, the [ascLeavesHouse] trigger fires exactly when the rule has not
    been applied and the house recorded for the ASC is the rule's house. *)
Lemma ascLeavesHouse_on_empty_cusps (rule : OrientationRule) (chart : ChartSnapshot)
    (state : OrientationRuntimeState) (target : HouseNumber) (ascLon : Q) :
  trigger rule = AscLeavesHouse target ->
  getAngleLon chart "ASC" = Some ascLon ->
  houseCusps chart = Some [] ->
  (ruleTriggered rule chart state = true
   <-> (id rule ∉ appliedRuleIds state)
       /\ getPrevHouse state (ascKey target) = Some target).
Proof.
  intros Ht Hasc Hcusps.
  destruct (decide (id rule ∈ appliedRuleIds state)) as [Hin | Hnotin].
  - unfold ruleTriggered. rewrite Ht, Hasc, Hcusps. cbv zeta.
    rewrite (bool_decide_eq_true_2 _ Hin). split; [discriminate | tauto].
  - destruct (ascLeavesHouse_paths rule chart state target ascLon []
                Ht Hasc Hcusps Hnotin) as [Hleft _].
    rewrite Hleft by discriminate. tauto.
Qed.

(** C1: the [ascLeavesHouse] trigger evaluated where the claim says it must
    not fire.  The ASC is at 15 degrees, in house 1, which is the house of
    the rule; the rule has not been applied; the house recorded under
    ["ASC:1"] is 2.  The trigger fires. *)
Theorem ascLeavesHouse_fires_inside_target_house :
  trigger ruleAscLeaves1 = AscLeavesHouse 1
  /\ getHouseForLongitude 15 evenCusps = Some 1
  /\ (id ruleAscLeaves1 ∉ appliedRuleIds (stateAscRecorded 2))
  /\ getPrevHouse (stateAscRecorded 2) "ASC:1" = Some 2
  /\ ruleTriggered ruleAscLeaves1 (chartEven 15 40) (stateAscRecorded 2) = true.
Proof.
  split; [reflexivity |]. split; [vm_compute; exact eq_refl |].
  split; [apply not_elem_of_empty |]. split; [reflexivity |].
  vm_compute. exact eq_refl.
Qed.

(** ** Effects *)

(** C5 as stated fails on a frame that has a [screenZero] and no
    [worldZero]: the code rotates [screenAngleDeg] and leaves [screenZero]
    at 10. *)
Lemma rotate_screenZero_without_worldZero :
  ~ rotatesZeroPointAsStated frameScreenZeroOnly 30
      (res_frame (applyRule ruleMarsAsc frameScreenZeroOnly [] chartNoData emptyState)).
Proof.
  unfold rotatesZeroPointAsStated. simpl. intros [z [[= <-] Hz]].
  vm_compute in Hz. discriminate.
Qed.

(** C5, amended: a fired rule with effect [rotate{delta}] applied to a frame
    [F] that has both [worldZero] and [screenZero] sets [screenZero] to
    [normalize (F.screenZero + delta)]; applied to any other frame it sets
    [screenAngleDeg] to [normalize (F.screenAngleDeg + delta)]; in both cases
    the updated zero point lies in [0,360). *)
Theorem applyRule_rotate_zero_point
    (rule : OrientationRule) (F : ViewFrame) (locks : list LockRule)
    (chart : ChartSnapshot) (state : OrientationRuntimeState) (delta : Q) :
  effect rule = Rotate delta ->
  let F' := res_frame (applyRule rule F locks chart state) in
  match worldZero F, screenZero F with
  | Some _, Some sz =>
      screenZero F' = Some (normalizeDeg (sz + delta))
      /\ (0 <= normalizeDeg (sz + delta) < 360)%Q
  | _, _ =>
      screenAngleDeg F' = normalizeDeg (screenAngleDeg F + delta)
      /\ (0 <= screenAngleDeg F' < 360)%Q
  end.
Proof.
  intros He. cbv zeta. unfold applyRule. simpl. rewrite He. simpl.
  destruct (worldZero F) as [wz |], (screenZero F) as [sz |]; simpl;
    (split; [reflexivity | apply normalizeDeg_range]).
Qed.

Lemma applyRule_rotate_zero_point_witness :
  (screenZero (res_frame (applyRule ruleMarsAsc frameNewModel [] chartNoData emptyState))
     = Some (normalizeDeg (350 + 30))
   /\ (0 <= normalizeDeg (350 + 30) < 360)%Q)
  /\ (screenAngleDeg (res_frame (applyRule ruleMarsAsc frameScreenZeroOnly [] chartNoData emptyState))
     = normalizeDeg (180 + 30)
   /\ (0 <= screenAngleDeg (res_frame (applyRule ruleMarsAsc frameScreenZeroOnly [] chartNoData emptyState)) < 360)%Q).
Proof.
  split.
  - exact (applyRule_rotate_zero_point ruleMarsAsc frameNewModel [] chartNoData
             emptyState 30 eq_refl).
  - exact (applyRule_rotate_zero_point ruleMarsAsc frameScreenZeroOnly [] chartNoData
             emptyState 30 eq_refl).
Defined.

(** ** Keys of the recorded house positions

    Every key that [applyRule] writes ends in a colon followed by the decimal
    form of the house it stores, so the key determines the stored value. *)

Section Keys.

Local Open Scope string_scope.

Lemma append_empty (s : string) : "" +:+ s = s.
Proof. reflexivity. Qed.

Lemma append_String (x : ascii) (a s : string) : String x a +:+ s = String x (a +:+ s).
Proof. reflexivity. Qed.

Lemma after_last_colon (a c b d : string) :
  colonFree b -> colonFree d ->
  a +:+ String ":"%char b = c +:+ String ":"%char d -> b = d.
Proof.
  intros Hb Hd. revert c. induction a as [| x a IH]; intros [| y c];
    rewrite ?append_empty, ?append_String; intros Heq.
  - congruence.
  - injection Heq as _ Heq. now destruct (Hb c d).
  - injection Heq as _ Heq. symmetry in Heq. now destruct (Hd a b).
  - injection Heq as _ Heq. eauto.
Qed.

Lemma colonFree_uint (d : Decimal.uint) : colonFree (NilEmpty.string_of_uint d).
Proof.
  induction d; intros [| y t] u; rewrite ?append_empty, ?append_String;
    cbn [NilEmpty.string_of_uint]; try discriminate;
    intros [= _ Heq]; eapply IHd; eassumption.
Qed.

Lemma colonFree_showZ (n : Z) : colonFree (showZ n).
Proof.
  assert (Hu : forall d, colonFree (NilZero.string_of_uint d)).
  { intros d. destruct d; try apply (colonFree_uint (_ _)).
    intros [| y [| z t]] u; rewrite ?append_empty, ?append_String; discriminate. }
  unfold showZ. destruct (Z.to_int n) as [d | d]; cbn [NilZero.string_of_int]; [apply Hu |].
  intros [| y t] u; rewrite ?append_empty, ?append_String; [discriminate |].
  intros [= _ Heq]. now apply (Hu d t u).
Qed.

Lemma showZ_inj (n m : Z) : showZ n = showZ m -> n = m.
Proof.
  unfold showZ. intros Heq. apply DecimalZ.to_int_inj.
  assert (Hparse : forall k, NilZero.int_of_string (NilZero.string_of_int (Z.to_int k))
                             = Some (Z.to_int k)).
  { intros k. apply NilZero.isi; destruct k; simpl; try discriminate;
      intros [= H]; now apply DecimalPos.Unsigned.to_uint_nonnil in H. }
  pose proof (Hparse n) as Hn. rewrite Heq, Hparse in Hn. congruence.
Qed.

(** Two keys that are equal store the same house. *)
Lemma key_determines_house (s1 s2 : string) (h1 h2 : HouseNumber) :
  s1 +:+ ":" +:+ showZ h1 = s2 +:+ ":" +:+ showZ h2 -> h1 = h2.
Proof.
  intros Heq. apply showZ_inj.
  apply (after_last_colon s1 s2); auto using colonFree_showZ.
Qed.

Lemma planetKey_determines_house (p1 p2 : Ident) (h1 h2 : HouseNumber) :
  planetKey p1 h1 = planetKey p2 h2 -> h1 = h2.
Proof. apply key_determines_house. Qed.

Lemma ascKey_planetKey_determines_house (p : Ident) (h1 h2 : HouseNumber) :
  ascKey h1 = planetKey p h2 -> h1 = h2.
Proof. apply (key_determines_house "ASC"). Qed.

End Keys.

(** ** Recorded positions across evaluations *)

Section Tracking.

Variable chart : ChartSnapshot.

(** The key [key] can only ever be written with the house [h]. *)
Variables (key : string) (h : HouseNumber) (subject : string).
Hypothesis key_shape : key = (subject +:+ ":" +:+ showZ h)%string.

Lemma trackPlanet_keeps (cusps : list (HouseNumber * Q))
    (m : gmap string HouseNumber) (entry : Ident * Q) :
  m !! key = Some h -> trackPlanet cusps m entry !! key = Some h.
Proof.
  intros Hm. unfold trackPlanet.
  destruct (getHouseForLongitude (snd entry) cusps) as [h' |]; [| exact Hm].
  destruct (decide (planetKey (fst entry) h' = key)) as [Heq | Hne].
  - pose proof Heq as Heq'. rewrite key_shape in Heq'.
    apply key_determines_house in Heq' as ->.
    rewrite Heq. apply lookup_insert_eq.
  - now rewrite lookup_insert_ne.
Qed.

Lemma fold_trackPlanet_keeps (cusps : list (HouseNumber * Q))
    (planets : list (Ident * Q)) (m : gmap string HouseNumber) :
  m !! key = Some h -> fold_left (trackPlanet cusps) planets m !! key = Some h.
Proof.
  revert m. induction planets as [| e planets IH]; intros m Hm; simpl; [exact Hm |].
  apply IH. now apply trackPlanet_keeps.
Qed.

(** The writes of [applyRule] keep a recorded house that agrees with its key. *)
Lemma trackPositions_keeps (m : gmap string HouseNumber) :
  m !! key = Some h -> trackPositions chart m !! key = Some h.
Proof.
  intros Hm. unfold trackPositions.
  destruct (houseCusps chart) as [cusps |]; [| exact Hm].
  assert (Hasc : match getAngleLon chart "ASC" with
                 | Some ascLon =>
                     match getHouseForLongitude ascLon cusps with
                     | Some ascHouse => <[ascKey ascHouse := ascHouse]> m
                     | None => m
                     end
                 | None => m
                 end !! key = Some h).
  { destruct (getAngleLon chart "ASC") as [ascLon |]; [| exact Hm].
    destruct (getHouseForLongitude ascLon cusps) as [h' |]; [| exact Hm].
    destruct (decide (ascKey h' = key)) as [Heq | Hne].
    - pose proof Heq as Heq'. rewrite key_shape in Heq'.
      apply (key_determines_house "ASC") in Heq' as ->.
      rewrite Heq. apply lookup_insert_eq.
    - now rewrite lookup_insert_ne. }
  destruct (planetLongitudes chart) as [planets |]; [| exact Hasc].
  now apply fold_trackPlanet_keeps.
Qed.

End Tracking.

Lemma alist_get_elem_of {K V : Type} `{EqDecision K} (k : K) (v : V) (m : list (K * V)) :
  alist_get k m = Some v -> (k, v) ∈ m.
Proof.
  unfold alist_get. destruct (List.find _ m) as [[k' v'] |] eqn:Hfind; [| discriminate].
  intros [= <-]. apply find_some in Hfind as [Hin Hk]. simpl in Hk.
  apply bool_decide_eq_true_1 in Hk as <-. now apply list_elem_of_In.
Qed.

(** After [applyRule], the house of every planet of the snapshot is recorded
    under the planet's key. *)
Lemma trackPositions_records_planet (chart : ChartSnapshot)
    (cusps : list (HouseNumber * Q)) (planet : Ident) (lon : Q) (h : HouseNumber)
    (m : gmap string HouseNumber) :
  houseCusps chart = Some cusps ->
  getPlanetLon chart planet = Some lon ->
  getHouseForLongitude lon cusps = Some h ->
  trackPositions chart m !! planetKey planet h = Some h.
Proof.
  intros Hcusps Hlon Hh. unfold trackPositions. rewrite Hcusps.
  unfold getPlanetLon in Hlon.
  destruct (planetLongitudes chart) as [planets |]; [| discriminate].
  simpl in Hlon. apply alist_get_elem_of in Hlon.
  match goal with |- fold_left _ _ ?m0 !! _ = _ => generalize m0 end.
  induction planets as [| e planets IH]; intros m0; [inversion Hlon |].
  simpl. apply elem_of_cons in Hlon as [<- | Hin].
  - apply (fold_trackPlanet_keeps _ h (showIdent planet) eq_refl).
    unfold trackPlanet. simpl. rewrite Hh. apply lookup_insert_eq.
  - now apply IH.
Qed.

Section Loop.

Variables (locks : list LockRule) (chart : ChartSnapshot).

(** An invariant of the state that one iteration keeps is kept by the loop. *)
Lemma evalLoop_invariant (P : OrientationRuntimeState -> Prop) :
  (forall acc rule, P (out_state acc) -> P (out_state (evalStep locks chart acc rule))) ->
  forall rs acc, P (out_state acc) -> P (out_state (fold_left (evalStep locks chart) rs acc)).
Proof.
  intros Hstep rs. induction rs as [| r rs IH]; intros acc Hacc; simpl; auto.
Qed.

(** A rule identifier, once applied, stays applied. *)
Lemma evalStep_applied (x : string) (acc : EvalResult) (rule : OrientationRule) :
  x ∈ appliedRuleIds (out_state acc) ->
  x ∈ appliedRuleIds (out_state (evalStep locks chart acc rule)).
Proof.
  intros Hx. unfold evalStep.
  destruct (ruleTriggered rule chart (out_state acc)); [| exact Hx].
  simpl. apply elem_of_union. now left.
Qed.

(** A recorded house that agrees with its key stays recorded. *)
Lemma evalStep_recorded (planet : Ident) (h : HouseNumber)
    (acc : EvalResult) (rule : OrientationRule) :
  getPrevHouse (out_state acc) (planetKey planet h) = Some h ->
  getPrevHouse (out_state (evalStep locks chart acc rule)) (planetKey planet h) = Some h.
Proof.
  intros Hrec. unfold evalStep.
  destruct (ruleTriggered rule chart (out_state acc)); [| exact Hrec].
  unfold getPrevHouse in *. simpl.
  apply (trackPositions_keeps chart _ h (showIdent planet) eq_refl).
  destruct (previousHousePositions (out_state acc)); [exact Hrec | discriminate].
Qed.

End Loop.

(** The state of the loop after all rules, from the state before rule [i]
    when that rule fires. *)
Lemma evalLoop_split (program : OrientationProgram) (chart : ChartSnapshot)
    (previousState : option OrientationRuntimeState)
    (rs : list OrientationRule) (i : nat) (rule : OrientationRule) :
  rs !! i = Some rule ->
  evalLoop program chart previousState rs
  = fold_left (evalStep (default [] (locks program)) chart) (drop (S i) rs)
      (evalStep (default [] (locks program)) chart
         (evalLoop program chart previousState (take i rs)) rule).
Proof.
  intros Hi. unfold evalLoop.
  rewrite <- (take_drop_middle rs i rule Hi) at 1.
  now rewrite fold_left_app.
Qed.

(** C2: if an edge-triggered rule ([ascLeavesHouse] or [planetCrossesHouse])
    fires during an evaluation of a program, then evaluating the program
    again on the identical snapshot, with the state that the first evaluation
    returned as the previous state, does not fire that rule. *)
Theorem evalOrientationProgram_no_refire
    (program : OrientationProgram) (chart : ChartSnapshot)
    (previousState : option OrientationRuntimeState)
    (i : nat) (rule : OrientationRule) :
  default [] (rules program) !! i = Some rule ->
  edgeTriggered (trigger rule) = true ->
  firesAt program chart previousState i = true ->
  forall j,
    default [] (rules program) !! j = Some rule ->
    firesAt program chart
      (Some (out_state (evalOrientationProgram program chart previousState))) j = false.
Proof.
  intros Hi Hedge Hfire j Hj. unfold firesAt in *. rewrite Hi in Hfire. rewrite Hj.
  unfold evalOrientationProgram. cbn [out_state].
  set (rs := default [] (rules program)) in *.
  set (ls := default [] (locks program)).
  rewrite (evalLoop_split program chart previousState rs i rule Hi). fold ls.
  set (acc := evalLoop program chart previousState (take i rs)) in *.
  set (S1 := out_state (fold_left (evalStep ls chart) (drop (S i) rs)
                          (evalStep ls chart acc rule))).
  assert (Hstep : out_state (evalStep ls chart acc rule)
                  = res_newState (applyRule rule (out_frame acc) ls chart (out_state acc))).
  { unfold evalStep. now rewrite Hfire. }
  unfold evalLoop. fold ls. cbn [default]. change (Datatypes.id S1) with S1.
  destruct (trigger rule) as [target | planet target | |] eqn:Ht; try discriminate.
  - (* the rule's identifier is in the set of applied rules from then on *)
    assert (Hid : forall rs' acc',
      out_state acc' = S1 ->
      id rule ∈ appliedRuleIds (out_state (fold_left (evalStep ls chart) rs' acc'))).
    { intros rs' acc' Hacc'.
      apply (evalLoop_invariant ls chart (fun st => id rule ∈ appliedRuleIds st)).
      - intros a r. apply evalStep_applied.
      - rewrite Hacc'. unfold S1.
        apply (evalLoop_invariant ls chart (fun st => id rule ∈ appliedRuleIds st)).
        + intros a r. apply evalStep_applied.
        + rewrite Hstep. simpl. apply elem_of_union. right. now apply elem_of_singleton. }
    specialize (Hid (take j rs)
      {| out_frame := baseFrame program; out_locks := []; out_state := S1 |} eq_refl).
    unfold ruleTriggered. rewrite Ht.
    destruct (getAngleLon chart "ASC"); [| reflexivity].
    destruct (houseCusps chart); [| reflexivity].
    cbv zeta. now rewrite (bool_decide_eq_true_2 _ Hid).
  - (* the planet's house is recorded under the rule's key from then on *)
    unfold ruleTriggered in Hfire. rewrite Ht in Hfire.
    destruct (getPlanetLon chart planet) as [lon |] eqn:Hlon; [| discriminate].
    destruct (houseCusps chart) as [cusps |] eqn:Hcusps; [| discriminate].
    cbv zeta in Hfire. unfold strictEq in Hfire at 1.
    destruct (bool_decide (getHouseForLongitude lon cusps = Some target)) eqn:Hcur;
      [| discriminate].
    apply bool_decide_eq_true_1 in Hcur.
    assert (Hrec : forall rs' acc',
      out_state acc' = S1 ->
      getPrevHouse (out_state (fold_left (evalStep ls chart) rs' acc'))
        (planetKey planet target) = Some target).
    { intros rs' acc' Hacc'.
      apply (evalLoop_invariant ls chart
               (fun st => getPrevHouse st (planetKey planet target) = Some target)).
      - intros a r. apply evalStep_recorded.
      - rewrite Hacc'. unfold S1.
        apply (evalLoop_invariant ls chart
                 (fun st => getPrevHouse st (planetKey planet target) = Some target)).
        + intros a r. apply evalStep_recorded.
        + rewrite Hstep. unfold getPrevHouse. simpl.
          now apply (trackPositions_records_planet chart cusps planet lon). }
    specialize (Hrec (take j rs)
      {| out_frame := baseFrame program; out_locks := []; out_state := S1 |} eq_refl).
    unfold ruleTriggered. rewrite Ht, Hlon, Hcusps. cbv zeta.
    rewrite Hrec. unfold strictEq.
    rewrite (bool_decide_eq_true_2 (Some target = Some target) eq_refl).
    now rewrite andb_false_r.
Qed.

Lemma evalOrientationProgram_no_refire_witness :
  (firesAt programAll (chartEven 15 40) None 1 = true
   /\ firesAt programAll (chartEven 15 40)
        (Some (out_state (evalOrientationProgram programAll (chartEven 15 40) None))) 1
      = false)
  /\ (firesAt programAll (chartEven 45 100) (Some (stateAscRecorded 1)) 2 = true
      /\ firesAt programAll (chartEven 45 100)
           (Some (out_state (evalOrientationProgram programAll (chartEven 45 100)
                               (Some (stateAscRecorded 1))))) 2
         = false).
Proof.
  split; split.
  - vm_compute. exact eq_refl.
  - apply (evalOrientationProgram_no_refire programAll (chartEven 15 40) None
             1 ruleMarsEnters2 eq_refl eq_refl); [vm_compute; exact eq_refl | reflexivity].
  - vm_compute. exact eq_refl.
  - apply (evalOrientationProgram_no_refire programAll (chartEven 45 100)
             (Some (stateAscRecorded 1)) 2 ruleAscLeaves1 eq_refl eq_refl);
      [vm_compute; exact eq_refl | reflexivity].
Defined.

(** * Further properties of the code *)

(** ** Numbers, continued *)

Section NormalizeMore.

Local Open Scope Q_scope.

Lemma Qtrunc_comp (q q' : Q) : q == q' -> Qtrunc q = Qtrunc q'.
Proof.
  intros Heq. destruct (Qlt_le_dec q 0) as [Hneg | Hpos].
  - rewrite (Qtrunc_nonpos q), (Qtrunc_nonpos q') by lra.
    f_equal. apply Qfloor_comp. lra.
  - rewrite (Qtrunc_nonneg q), (Qtrunc_nonneg q') by lra.
    now apply Qfloor_comp.
Qed.

Lemma jsRem_360_comp (a a' : Q) : a == a' -> jsRem a 360 == jsRem a' 360.
Proof.
  intros Heq. unfold jsRem.
  rewrite (Qtrunc_comp (a / 360) (a' / 360)) by (now rewrite Heq). lra.
Qed.

Lemma normalizeDeg_comp (a a' : Q) : a == a' -> normalizeDeg a == normalizeDeg a'.
Proof.
  intros Heq. unfold normalizeDeg. apply jsRem_360_comp.
  rewrite (jsRem_360_comp a a' Heq). reflexivity.
Qed.

(** [normalizeDeg] differs from its argument by a multiple of 360. *)
Lemma normalizeDeg_decomp (x : Q) :
  exists k : Z, normalizeDeg x == x - 360 * inject_Z k.
Proof.
  exists (Qtrunc (x / 360) + Qtrunc ((jsRem x 360 + 360) / 360) - 1)%Z.
  unfold normalizeDeg. unfold jsRem at 1.
  set (k2 := Qtrunc ((jsRem x 360 + 360) / 360)).
  unfold jsRem. set (k1 := Qtrunc (x / 360)).
  unfold Z.sub. rewrite !inject_Z_plus, inject_Z_opp.
  change (inject_Z 1) with 1. lra.
Qed.

(** The value in [0,360) that differs from [x] by a multiple of 360 is
    [normalizeDeg x]. *)
Lemma normalizeDeg_unique (x r : Q) (k : Z) :
  0 <= r -> r < 360 -> x == r + 360 * inject_Z k -> normalizeDeg x == r.
Proof.
  intros Hr0 Hr1 Hx.
  destruct (normalizeDeg_decomp x) as [k' Hk'].
  pose proof (normalizeDeg_range x) as Hn.
  assert (Ek : 360 * inject_Z (k - k') == normalizeDeg x - r).
  { unfold Z.sub. rewrite inject_Z_plus, inject_Z_opp. lra. }
  assert (Hz : (k - k' = 0)%Z) by (apply inject_Z_small; lra).
  rewrite Hz in Ek. change (inject_Z 0) with 0 in Ek. lra.
Qed.

Lemma normalizeDeg_in_range (x : Q) : 0 <= x -> x < 360 -> normalizeDeg x == x.
Proof.
  intros H0 H1. apply (normalizeDeg_unique x x 0); try assumption.
  change (inject_Z 0) with 0. lra.
Qed.

Lemma normalizeDeg_period (x : Q) (k : Z) :
  normalizeDeg (x + 360 * inject_Z k) == normalizeDeg x.
Proof.
  destruct (normalizeDeg_decomp x) as [k' Hk'].
  pose proof (normalizeDeg_range x) as Hn.
  apply (normalizeDeg_unique _ _ (k + k')); try tauto.
  rewrite inject_Z_plus. lra.
Qed.

Lemma normalizeDeg_idem_add (x d : Q) :
  normalizeDeg (normalizeDeg x + d) == normalizeDeg (x + d).
Proof.
  destruct (normalizeDeg_decomp x) as [k Hk].
  rewrite <- (normalizeDeg_period (x + d) (- k)).
  apply normalizeDeg_comp. rewrite inject_Z_opp. lra.
Qed.

End NormalizeMore.

(** ** House locator, continued *)

Section Locator.

Local Open Scope Q_scope.

Lemma Qltb_true_iff (a b : Q) : Qltb a b = true <-> a < b.
Proof.
  unfold Qltb. rewrite negb_true_iff. split.
  - intros H. apply Qnot_le_lt. intros Hle.
    apply Qle_bool_iff in Hle. congruence.
  - intros H. destruct (Qle_bool b a) eqn:Hb; [| reflexivity].
    apply Qle_bool_iff in Hb. lra.
Qed.

Lemma Qgeb_true_iff (a b : Q) : Qgeb a b = true <-> b <= a.
Proof. unfold Qgeb. apply Qle_bool_iff. Qed.

(** The test of one iteration, as a proposition. *)
Lemma houseContains_spec (L : Q) (current next : SortedHouse) :
  houseContains L current next = true <->
  (cusp next < cusp current /\ (cusp current <= L \/ L < cusp next))
  \/ (cusp current <= cusp next /\ cusp current <= L /\ L < cusp next).
Proof.
  unfold houseContains.
  destruct (Qltb (cusp next) (cusp current)) eqn:Hwrap.
  - apply Qltb_true_iff in Hwrap.
    rewrite orb_true_iff, Qgeb_true_iff, Qltb_true_iff. split; [tauto |].
    intros [[_ H] | [H _]]; [exact H | lra].
  - assert (Hle : cusp current <= cusp next).
    { apply Qnot_lt_le. intros Hlt. apply Qltb_true_iff in Hlt. congruence. }
    rewrite andb_true_iff, Qgeb_true_iff, Qltb_true_iff. split; [tauto |].
    intros [[H _] | [_ H]]; [lra | exact H].
Qed.

(** The indexed loop is the recursion over the rest of the array. *)
Lemma scanHouses_scanFrom (sorted : list SortedHouse) (first : SortedHouse) (L : Q) :
  head sorted = Some first ->
  forall n i, (i + n = length sorted)%nat ->
    scanHouses sorted L i n = scanFrom first L (drop i sorted).
Proof.
  intros Hfirst. induction n as [| n IH]; intros i Hlen.
  - rewrite drop_ge by lia. reflexivity.
  - assert (Hi : (i < length sorted)%nat) by lia.
    destruct (lookup_lt_is_Some_2 sorted i Hi) as [current Hcur].
    cbn [scanHouses]. rewrite Hcur, (drop_S sorted current i Hcur).
    cbn [scanFrom].
    assert (Hnext : sorted !! ((i + 1) mod length sorted)%nat
                    = Some (default first (head (drop (S i) sorted)))).
    { rewrite head_lookup, lookup_drop, Nat.add_0_r.
      destruct (decide (S i = length sorted)) as [Heq | Hne].
      - replace (i + 1)%nat with (length sorted) by lia.
        rewrite Nat.Div0.mod_same, (lookup_ge_None_2 sorted (S i)) by lia.
        simpl. now rewrite <- head_lookup.
      - rewrite Nat.mod_small by lia. replace (i + 1)%nat with (S i) by lia.
        destruct (lookup_lt_is_Some_2 sorted (S i)) as [next Hn]; [lia |].
        now rewrite Hn. }
    rewrite Hnext.
    destruct (houseContains L current _); [reflexivity |].
    apply IH. lia.
Qed.

(** The house locator on a non-empty map, through [scanFrom]. *)
Lemma getHouseForLongitude_scanFrom (longitude : Q) (cusps : list (HouseNumber * Q)) :
  cusps <> [] ->
  exists first rest,
    sortedHousesOf cusps = first :: rest /\
    getHouseForLongitude longitude cusps
    = Some (default (houseNum first)
              (scanFrom first (normalizeAngle longitude) (first :: rest))).
Proof.
  intros Hne. pose proof (sortedHousesOf_nonempty cusps Hne) as Hs.
  destruct (sortedHousesOf cusps) as [| first rest] eqn:Hsorted; [congruence |].
  exists first, rest. split; [reflexivity |].
  unfold getHouseForLongitude. destruct cusps as [| e m]; [congruence |].
  cbv zeta. rewrite Hsorted.
  rewrite (scanHouses_scanFrom (first :: rest) first _ eq_refl _ 0%nat eq_refl).
  rewrite drop_0.
  destruct (scanFrom first (normalizeAngle longitude) (first :: rest)); reflexivity.
Qed.

Variables (first : SortedHouse) (L : Q).

(** The loop when every cusp lies above the longitude: only the wrap test of
    the last element can succeed. *)
Lemma scanFrom_above (l : list SortedHouse) :
  L < cusp first ->
  StronglySorted cuspLe l ->
  (forall e, e ∈ l -> L < cusp e) ->
  match scanFrom first L l with
  | Some h => exists s, s ∈ l /\ houseNum s = h /\ forall e, e ∈ l -> cusp e <= cusp s
  | None => forall e, e ∈ l -> cusp e <= cusp first
  end.
Proof.
  intros Hfirst. induction l as [| current rest IH]; intros Hsorted Habove.
  - simpl. intros e He. inversion He.
  - apply StronglySorted_cons in Hsorted as [Hcur Hrest].
    rewrite Forall_forall in Hcur.
    assert (HL : L < cusp current) by (apply Habove; left).
    cbn [scanFrom].
    destruct (houseContains L current (default first (head rest))) eqn:Htest.
    + apply houseContains_spec in Htest.
      destruct rest as [| next rest'].
      * exists current. split; [left |]. split; [reflexivity |].
        intros e He. apply list_elem_of_singleton in He as ->. lra.
      * simpl in Htest. destruct Htest as [[Hlt _] | [_ [Hle _]]]; [| lra].
        assert (cuspLe current next) by (apply Hcur; left). unfold cuspLe in *. lra.
    + specialize (IH Hrest (fun e He => Habove e (list_elem_of_further _ _ _ He))).
      destruct rest as [| next rest'].
      * simpl. intros e He. apply list_elem_of_singleton in He as ->.
        simpl in Htest.
        destruct (Qlt_le_dec (cusp first) (cusp current)) as [Hlt | Hle]; [| exact Hle].
        assert (houseContains L current first = true); [| congruence].
        apply houseContains_spec. left. split; [exact Hlt | right; exact Hfirst].
      * assert (Hcn : cuspLe current next) by (apply Hcur; left). unfold cuspLe in Hcn.
        destruct (scanFrom first L (next :: rest')) as [h |].
        -- destruct IH as [s [Hs [Hh Hmax]]]. exists s.
           split; [now right |]. split; [exact Hh |].
           intros e He. apply elem_of_cons in He as [-> | He]; [| now apply Hmax].
           apply Qle_trans with (cusp next); [exact Hcn | apply Hmax; left].
        -- intros e He. apply elem_of_cons in He as [-> | He]; [| now apply IH].
           apply Qle_trans with (cusp next); [exact Hcn | apply IH; left].
Qed.

(** The loop from an element whose cusp is not above the longitude: it stops
    at the last element whose cusp is not above the longitude. *)
Lemma scanFrom_below (l : list SortedHouse) :
  cusp first <= L ->
  StronglySorted cuspLe l ->
  (forall current rest, l = current :: rest -> cusp current <= L) ->
  match scanFrom first L l with
  | Some h =>
      exists s, s ∈ l /\ houseNum s = h /\ cusp s <= L /\
                forall e, e ∈ l -> cusp e <= L -> cusp e <= cusp s
  | None => forall e, e ∈ l -> cusp e <= cusp first
  end.
Proof.
  intros Hfirst. induction l as [| current rest IH]; intros Hsorted Hhead.
  - simpl. intros e He. inversion He.
  - apply StronglySorted_cons in Hsorted as [Hcur Hrest].
    rewrite Forall_forall in Hcur.
    assert (HL : cusp current <= L) by (now apply (Hhead current rest)).
    cbn [scanFrom].
    destruct (houseContains L current (default first (head rest))) eqn:Htest.
    + apply houseContains_spec in Htest.
      exists current. split; [left |]. split; [reflexivity |]. split; [exact HL |].
      intros e He HeL. apply elem_of_cons in He as [-> | He]; [lra |].
      destruct rest as [| next rest']; [inversion He |].
      simpl in Htest.
      assert (Hcn : cuspLe current next) by (apply Hcur; left).
      assert (Hne : cuspLe next e).
      { apply elem_of_cons in He as [-> | He]; [unfold cuspLe; lra |].
        apply StronglySorted_cons in Hrest as [Hnext _].
        rewrite Forall_forall in Hnext. now apply Hnext. }
      unfold cuspLe in *.
      destruct Htest as [[Hlt _] | [_ [_ Hlt]]]; lra.
    + destruct rest as [| next rest'].
      * simpl. intros e He. apply list_elem_of_singleton in He as ->.
        simpl in Htest.
        destruct (Qlt_le_dec (cusp first) (cusp current)) as [Hlt | Hle]; [| exact Hle].
        assert (houseContains L current first = true); [| congruence].
        apply houseContains_spec. left. split; [exact Hlt | left; exact HL].
      * assert (Hcn : cuspLe current next) by (apply Hcur; left). unfold cuspLe in Hcn.
        assert (HnL : cusp next <= L).
        { apply Qnot_lt_le. intros Hlt.
          assert (houseContains L current next = true); [| simpl in Htest; congruence].
          apply houseContains_spec. right. tauto. }
        assert (Hhead' : forall c r, next :: rest' = c :: r -> cusp c <= L)
          by (intros c r [= <- _]; exact HnL).
        specialize (IH Hrest Hhead').
        destruct (scanFrom first L (next :: rest')) as [h |].
        -- destruct IH as [s [Hs [Hh [HsL Hmax]]]]. exists s.
           split; [now right |]. split; [exact Hh |]. split; [exact HsL |].
           intros e He HeL. apply elem_of_cons in He as [-> | He]; [| now apply Hmax].
           apply Qle_trans with (cusp next); [exact Hcn | apply Hmax; [left | exact HnL]].
        -- intros e He. apply elem_of_cons in He as [-> | He]; [| now apply IH].
           apply Qle_trans with (cusp next); [exact Hcn | apply IH; left].
Qed.

End Locator.

Lemma elem_of_sortedHousesOf (s : SortedHouse) (cusps : list (HouseNumber * Q)) :
  s ∈ sortedHousesOf cusps <->
  exists e, e ∈ cusps /\ s = mkSortedHouse (fst e) (normalizeAngle (snd e)).
Proof.
  unfold sortedHousesOf. rewrite elem_of_sortByCusp, list_elem_of_In, in_map_iff.
  split; intros [e [H1 H2]]; exists e; rewrite list_elem_of_In in *; auto.
Qed.

(** The element that the locator returns precedes the longitude on the
    circle. *)
Lemma getHouseForLongitude_predecessor (longitude : Q) (cusps : list (HouseNumber * Q)) :
  cusps <> [] ->
  exists s, getHouseForLongitude longitude cusps = Some (houseNum s)
            /\ circularPredecessor (normalizeDeg longitude) (sortedHousesOf cusps) s.
Proof.
  intros Hne.
  destruct (getHouseForLongitude_scanFrom longitude cusps Hne)
    as [first [rest [Hsorted ->]]].
  pose proof (sortByCusp_sorted
    (List.map (fun e => mkSortedHouse (fst e) (normalizeAngle (snd e))) cusps)) as Hss.
  fold (sortedHousesOf cusps) in Hss. rewrite Hsorted in *.
  unfold normalizeAngle at 1. set (L := normalizeDeg longitude).
  assert (Hmin : forall e, e ∈ first :: rest -> (cusp first <= cusp e)%Q).
  { apply StronglySorted_cons in Hss as [Hf _]. rewrite Forall_forall in Hf.
    intros e He. apply elem_of_cons in He as [-> | He]; [apply Qle_refl | now apply Hf]. }
  unfold circularPredecessor.
  destruct (Qlt_le_dec L (cusp first)) as [Habove | Hbelow].
  - assert (Hall : forall e, e ∈ first :: rest -> (L < cusp e)%Q).
    { intros e He. apply Qlt_le_trans with (cusp first); auto. }
    pose proof (scanFrom_above first L (first :: rest) Habove Hss Hall) as Hscan.
    destruct (scanFrom first L (first :: rest)) as [h |]; simpl.
    + destruct Hscan as [s [Hs [<- Hmax]]]. exists s. split; [reflexivity |].
      split; [exact Hs |]. right. split; [now apply Hall |].
      intros e He. split; [now apply Hall | now apply Hmax].
    + exists first. split; [reflexivity |]. split; [left |]. right.
      split; [exact Habove |]. intros e He. split; [now apply Hall | now apply Hscan].
  - assert (Hhead : forall c r, first :: rest = c :: r -> (cusp c <= L)%Q)
      by (intros c r [= <- _]; exact Hbelow).
    pose proof (scanFrom_below first L (first :: rest) Hbelow Hss Hhead) as Hscan.
    destruct (scanFrom first L (first :: rest)) as [h |]; simpl.
    + destruct Hscan as [s [Hs [<- [HsL Hmax]]]]. exists s. split; [reflexivity |].
      split; [exact Hs |]. left. split; [exact HsL | exact Hmax].
    + exists first. split; [reflexivity |]. split; [left |]. left.
      split; [exact Hbelow |]. intros e He _. now apply Hscan.
Qed.

Lemma house_of_preceding_cusp (longitude : Q) (cusps : list (HouseNumber * Q)) :
  cusps <> [] ->
  exists h c,
    getHouseForLongitude longitude cusps = Some h /\ (h, c) ∈ cusps /\
    (((normalizeDeg c <= normalizeDeg longitude)%Q /\
      forall h' c', (h', c') ∈ cusps ->
        (normalizeDeg c' <= normalizeDeg longitude)%Q ->
        (normalizeDeg c' <= normalizeDeg c)%Q)
     \/ ((normalizeDeg longitude < normalizeDeg c)%Q /\
         forall h' c', (h', c') ∈ cusps ->
           (normalizeDeg longitude < normalizeDeg c')%Q /\
           (normalizeDeg c' <= normalizeDeg c)%Q)).
Proof.
  intros Hne.
  destruct (getHouseForLongitude_predecessor longitude cusps Hne) as [s [Hres [Hs Hpred]]].
  apply elem_of_sortedHousesOf in Hs as [[h c] [Hin ->]]. simpl in *.
  exists h, c. split; [exact Hres |]. split; [exact Hin |].
  assert (Hmem : forall h' c', (h', c') ∈ cusps ->
            mkSortedHouse h' (normalizeAngle c') ∈ sortedHousesOf cusps).
  { intros h' c' H'. apply elem_of_sortedHousesOf. exists (h', c'). auto. }
  unfold normalizeAngle in *.
  destruct Hpred as [[H1 H2] | [H1 H2]]; [left | right]; (split; [exact H1 |]).
  - intros h' c' H' Hle. exact (H2 _ (Hmem h' c' H') Hle).
  - intros h' c' H'. exact (H2 _ (Hmem h' c' H')).
Qed.

(** X1: on every non-empty cusp map, well formed or not, the house that the
    locator returns belongs to an entry whose normalized cusp precedes the
    normalized longitude on the circle: it is the greatest normalized cusp
    that is not above the longitude or, when all cusps are above the
    longitude, the greatest cusp of all (the house that wraps past 360). *)
Theorem getHouseForLongitude_contains (longitude : Q) (cusps : list (HouseNumber * Q)) :
  cusps <> [] ->
  exists h c,
    getHouseForLongitude longitude cusps = Some h /\ (h, c) ∈ cusps /\
    (((normalizeDeg c <= normalizeDeg longitude)%Q /\
      forall h' c', (h', c') ∈ cusps ->
        (normalizeDeg c' <= normalizeDeg longitude)%Q ->
        (normalizeDeg c' <= normalizeDeg c)%Q)
     \/ ((normalizeDeg longitude < normalizeDeg c)%Q /\
         forall h' c', (h', c') ∈ cusps ->
           (normalizeDeg longitude < normalizeDeg c')%Q /\
           (normalizeDeg c' <= normalizeDeg c)%Q)).
Proof. exact (house_of_preceding_cusp longitude cusps). Qed.

Lemma getHouseForLongitude_contains_witness :
  exists h c,
    getHouseForLongitude 725 [(7, 200%Q); (3, 200%Q); (9, 20%Q)] = Some h
    /\ (h, c) ∈ [(7, 200%Q); (3, 200%Q); (9, 20%Q)]
    /\ (((normalizeDeg c <= normalizeDeg 725)%Q /\
         forall h' c', (h', c') ∈ [(7, 200%Q); (3, 200%Q); (9, 20%Q)] ->
           (normalizeDeg c' <= normalizeDeg 725)%Q ->
           (normalizeDeg c' <= normalizeDeg c)%Q)
        \/ ((normalizeDeg 725 < normalizeDeg c)%Q /\
            forall h' c', (h', c') ∈ [(7, 200%Q); (3, 200%Q); (9, 20%Q)] ->
              (normalizeDeg 725 < normalizeDeg c')%Q /\
              (normalizeDeg c' <= normalizeDeg c)%Q)).
Proof.
  apply (getHouseForLongitude_contains 725 [(7, 200%Q); (3, 200%Q); (9, 20%Q)]).
  discriminate.
Defined.

Lemma house_on_own_cusp
    (longitude : Q) (cusps : list (HouseNumber * Q)) (h : HouseNumber) (c : Q) :
  (h, c) ∈ cusps ->
  (normalizeDeg longitude == normalizeDeg c)%Q ->
  (forall h' c', (h', c') ∈ cusps -> (normalizeDeg c' == normalizeDeg c)%Q -> h' = h) ->
  getHouseForLongitude longitude cusps = Some h.
Proof.
  intros Hin Heq Huniq.
  assert (Hne : cusps <> []) by (intros ->; inversion Hin).
  destruct (house_of_preceding_cusp longitude cusps Hne)
    as [h0 [c0 [-> [Hin0 Hpred]]]].
  f_equal. apply (Huniq h0 c0 Hin0).
  destruct Hpred as [[H1 H2] | [_ H2]].
  - specialize (H2 h c Hin). apply Qle_antisym; lra.
  - destruct (H2 h c Hin) as [Hlt _]. lra.
Qed.

(** X2: a longitude that equals a cusp modulo 360 lies in the house of that
    cusp, provided no other entry of the map has the same cusp modulo 360. *)
Theorem getHouseForLongitude_on_cusp
    (longitude : Q) (cusps : list (HouseNumber * Q)) (h : HouseNumber) (c : Q) :
  (h, c) ∈ cusps ->
  (normalizeDeg longitude == normalizeDeg c)%Q ->
  (forall h' c', (h', c') ∈ cusps -> (normalizeDeg c' == normalizeDeg c)%Q -> h' = h) ->
  getHouseForLongitude longitude cusps = Some h.
Proof. exact (house_on_own_cusp longitude cusps h c). Qed.

Lemma getHouseForLongitude_on_cusp_witness :
  getHouseForLongitude (30 + 720) evenCusps = Some 2.
Proof.
  apply (getHouseForLongitude_on_cusp (30 + 720) evenCusps 2 30).
  - vm_compute. right. left.
  - vm_compute. reflexivity.
  - intros h' c' Hin.
    vm_compute in Hin.
    repeat (apply elem_of_cons in Hin as [[= -> ->] | Hin];
            [vm_compute; intros Hc; first [reflexivity | discriminate] |]).
    inversion Hin.
Defined.

Lemma houseContains_comp (L L' : Q) (current next : SortedHouse) :
  (L == L')%Q -> houseContains L current next = houseContains L' current next.
Proof.
  intros Heq.
  destruct (houseContains L current next) eqn:H1;
    destruct (houseContains L' current next) eqn:H2; try reflexivity.
  - apply houseContains_spec in H1.
    assert (houseContains L' current next = true); [| congruence].
    apply houseContains_spec. rewrite <- Heq. exact H1.
  - apply houseContains_spec in H2.
    assert (houseContains L current next = true); [| congruence].
    apply houseContains_spec. rewrite Heq. exact H2.
Qed.

Lemma scanHouses_comp (sorted : list SortedHouse) (L L' : Q) (n i : nat) :
  (L == L')%Q -> scanHouses sorted L i n = scanHouses sorted L' i n.
Proof.
  intros Heq. revert i. induction n as [| n IH]; intros i; [reflexivity |].
  cbn [scanHouses].
  destruct (sorted !! i) as [current |]; [| apply IH].
  destruct (sorted !! ((i + 1) mod length sorted)%nat) as [next |]; [| apply IH].
  rewrite (houseContains_comp L L' current next Heq), IH. reflexivity.
Qed.

(** The locator reads the longitude only modulo 360. *)
Lemma getHouseForLongitude_comp (lon lon' : Q) (cusps : list (HouseNumber * Q)) :
  (normalizeDeg lon == normalizeDeg lon')%Q ->
  getHouseForLongitude lon cusps = getHouseForLongitude lon' cusps.
Proof.
  intros Heq. unfold getHouseForLongitude. destruct cusps as [| e m]; [reflexivity |].
  cbv zeta. change (normalizeAngle lon) with (normalizeDeg lon).
  change (normalizeAngle lon') with (normalizeDeg lon').
  now rewrite (scanHouses_comp _ _ _ _ _ Heq).
Qed.

(** X3: the house of a longitude does not change when whole turns are added
    to the longitude or taken from it. *)
Theorem getHouseForLongitude_periodic
    (longitude : Q) (k : Z) (cusps : list (HouseNumber * Q)) :
  getHouseForLongitude (longitude + 360 * inject_Z k) cusps
  = getHouseForLongitude longitude cusps.
Proof. apply getHouseForLongitude_comp, normalizeDeg_period. Qed.

(** X4: when the normalized cusps of a map are pairwise different, the house
    of a longitude does not depend on the order in which the entries were
    inserted. *)
Theorem getHouseForLongitude_insertion_order
    (longitude : Q) (cusps cusps' : list (HouseNumber * Q)) :
  cusps ≡ₚ cusps' ->
  (forall e1 e2, e1 ∈ cusps -> e2 ∈ cusps ->
     (normalizeDeg (snd e1) == normalizeDeg (snd e2))%Q -> e1 = e2) ->
  getHouseForLongitude longitude cusps = getHouseForLongitude longitude cusps'.
Proof.
  intros Hperm Hdistinct.
  destruct cusps as [| e m].
  { apply Permutation_nil in Hperm. now subst. }
  apply getHouseForLongitude_sortedHouses; [discriminate | |].
  { intros ->. symmetry in Hperm. now apply Permutation_nil in Hperm. }
  assert (Hp : sortedHousesOf (e :: m) ≡ₚ sortedHousesOf cusps').
  { unfold sortedHousesOf. rewrite !sortByCusp_Permutation. now apply Permutation_map. }
  apply (StronglySorted_unique_strong cuspLe);
    [| apply sortByCusp_sorted | apply sortByCusp_sorted | exact Hp].
  intros x1 x2 H1 H2 Hle Hge. rewrite <- Hp in H2.
  apply elem_of_sortedHousesOf in H1 as [e1 [He1 ->]].
  apply elem_of_sortedHousesOf in H2 as [e2 [He2 ->]].
  unfold cuspLe in Hle, Hge. simpl in Hle, Hge.
  rewrite (Hdistinct e1 e2 He1 He2); [reflexivity |].
  unfold normalizeAngle in *. now apply Qle_antisym.
Qed.

Lemma getHouseForLongitude_insertion_order_witness :
  getHouseForLongitude 100 [(1, 350%Q); (2, 80%Q); (3, 200%Q)]
  = getHouseForLongitude 100 [(3, 200%Q); (1, 350%Q); (2, 80%Q)].
Proof.
  apply getHouseForLongitude_insertion_order.
  - symmetry. apply (Permutation_cons_append [(1, 350%Q); (2, 80%Q)] (3, 200%Q)).
  - intros e1 e2 H1 H2.
    repeat (apply elem_of_cons in H1 as [-> | H1]);
      repeat (apply elem_of_cons in H2 as [-> | H2]);
      try (inversion H1; fail); try (inversion H2; fail);
      vm_compute; intros Hc; first [reflexivity | discriminate].
Defined.

(** ** Locks, continued *)

(** X5: an element should be locked exactly when the lock-frame lookup
    returns a frame for it. *)
Theorem shouldLockElement_iff_lock_frame
    (lockRuleApplies : LockRule -> ElementType -> Ident -> bool)
    (elementType : ElementType) (elementId : Ident) (locks : list LockRule) :
  shouldLockElement lockRuleApplies elementType elementId locks = true
  <-> exists f, getLockFrameForElement lockRuleApplies elementType elementId locks = Some f.
Proof.
  unfold shouldLockElement, getLockFrameForElement.
  induction locks as [| lock locks IH]; simpl.
  - split; [discriminate | intros [f Hf]; discriminate].
  - destruct (lockRuleApplies lock elementType elementId); simpl.
    + split; [intros _; eauto | reflexivity].
    + exact IH.
Qed.

(** ** Chart data from render data *)

Section AssocList.

Context {K V : Type} `{EqDecision K}.

Lemma alist_get_nil (k : K) : alist_get k ([] : list (K * V)) = None.
Proof. reflexivity. Qed.

Lemma alist_get_cons (k : K) (e : K * V) (m : list (K * V)) :
  alist_get k (e :: m) = if bool_decide (fst e = k) then Some (snd e) else alist_get k m.
Proof. unfold alist_get. simpl. now destruct (bool_decide (fst e = k)). Qed.

(** Reading a key that was just set. *)
Lemma alist_get_set_eq (k : K) (v : V) (m : list (K * V)) :
  alist_get k (alist_set k v m) = Some v.
Proof.
  induction m as [| e m IH]; simpl.
  - rewrite alist_get_cons. simpl. now rewrite bool_decide_eq_true_2.
  - destruct (bool_decide (fst e = k)) eqn:He.
    + rewrite alist_get_cons. simpl. now rewrite bool_decide_eq_true_2.
    + rewrite alist_get_cons, He. exact IH.
Qed.

(** Setting a key leaves the other keys as they were. *)
Lemma alist_get_set_ne (k k' : K) (v : V) (m : list (K * V)) :
  k <> k' -> alist_get k' (alist_set k v m) = alist_get k' m.
Proof.
  intros Hne. induction m as [| e m IH]; simpl.
  - rewrite alist_get_cons. simpl. now rewrite bool_decide_eq_false_2.
  - destruct (bool_decide (fst e = k)) eqn:He.
    + apply bool_decide_eq_true_1 in He.
      rewrite !alist_get_cons. simpl.
      rewrite (bool_decide_eq_false_2 (k = k')) by exact Hne.
      rewrite (bool_decide_eq_false_2 (fst e = k')) by congruence. reflexivity.
    + rewrite !alist_get_cons, IH. reflexivity.
Qed.

(** After a run of [set] calls, a key holds the value of the last call that
    set it. *)
Lemma alist_get_fold_set {X : Type} (key : X -> K) (val : X -> V)
    (xs : list X) (m : list (K * V)) (k : K) :
  alist_get k (fold_left (fun m x => alist_set (key x) (val x) m) xs m)
  = match List.find (fun x => bool_decide (key x = k)) (rev xs) with
    | Some x => Some (val x)
    | None => alist_get k m
    end.
Proof.
  revert m. induction xs as [| x xs IH]; intros m; [reflexivity |].
  cbn [fold_left rev]. rewrite IH.
  destruct (List.find _ (rev xs)) as [y |] eqn:Hfind.
  - assert (Happ : List.find (fun x0 => bool_decide (key x0 = k)) (rev xs ++ [x]) = Some y).
    { clear IH. induction (rev xs) as [| z zs IHz]; [discriminate |].
      simpl in *. destruct (bool_decide (key z = k)); [exact Hfind | now apply IHz]. }
    now rewrite Happ.
  - assert (Happ : List.find (fun x0 => bool_decide (key x0 = k)) (rev xs ++ [x])
                   = if bool_decide (key x = k) then Some x else None).
    { clear IH. induction (rev xs) as [| z zs IHz]; [reflexivity |].
      simpl in *. destruct (bool_decide (key z = k)); [discriminate | now apply IHz]. }
    rewrite Happ. destruct (bool_decide (key x = k)) eqn:Hk.
    + apply bool_decide_eq_true_1 in Hk as <-. apply alist_get_set_eq.
    + apply bool_decide_eq_false_1 in Hk. now apply alist_get_set_ne.
Qed.

End AssocList.

Lemma houseNumberOfIndex_in_range (i : Z) :
  0 <= i <= 11 -> houseNumberOfIndex i = i + 1.
Proof.
  intros Hi. unfold houseNumberOfIndex. cbv zeta.
  destruct (decide (i = 11)) as [-> | Hne]; [reflexivity |].
  rewrite Z.rem_small by lia.
  destruct (i + 1 =? 0) eqn:H0; [lia | reflexivity].
Qed.

Lemma find_last_occurrence {X : Type} (f : X -> bool) (pre post : list X) (x : X) :
  f x = true -> (forall y, y ∈ post -> f y = false) ->
  List.find f (rev (pre ++ x :: post)) = Some x.
Proof.
  intros Hx Hpost. rewrite rev_app_distr. simpl. rewrite <- app_assoc. simpl.
  assert (Hrev : forall y, y ∈ rev post -> f y = false).
  { intros y Hy. apply Hpost. rewrite list_elem_of_In in *. now apply in_rev. }
  induction (rev post) as [| z zs IH]; simpl; [now rewrite Hx |].
  rewrite (Hrev z) by left. apply IH. intros y Hy. apply Hrev. now right.
Qed.

Lemma find_no_occurrence {X : Type} (f : X -> bool) (l : list X) :
  (forall y, y ∈ l -> f y = false) -> List.find f (rev l) = None.
Proof.
  intros Hl.
  assert (Hrev : forall y, y ∈ rev l -> f y = false).
  { intros y Hy. apply Hl. rewrite list_elem_of_In in *. now apply in_rev. }
  induction (rev l) as [| z zs IH]; simpl; [reflexivity |].
  rewrite (Hrev z) by left. apply IH. intros y Hy. apply Hrev. now right.
Qed.

(** X6: the longitude that the resolver of a built chart returns for a
    planet index is the degree of the last planet of the render data with
    that index; an index that no planet has, and every string identifier,
    is not found. *)
Theorem buildChartData_planet_lookup (renderData : RenderData) (ps : list PlanetData) :
  planets renderData = Some ps ->
  let resolver := createAnchorResolver (buildChartDataFromRenderData renderData) in
  (forall pre x post,
      ps = pre ++ x :: post ->
      (forall y, y ∈ post -> planet y <> planet x) ->
      getObjectLongitude resolver (IdNum (planet x)) = Some (degree x))
  /\ (forall p, (forall y, y ∈ ps -> planet y <> p) ->
               getObjectLongitude resolver (IdNum p) = None)
  /\ (forall name, getObjectLongitude resolver (IdStr name) = None).
Proof.
  intros Hps. cbv zeta. unfold createAnchorResolver, buildChartDataFromRenderData.
  cbn [getObjectLongitude]. unfold getPlanetLon. cbn [planetLongitudes].
  rewrite Hps. cbn [mbind option_bind].
  split; [| split].
  - intros pre x post -> Hpost.
    rewrite (alist_get_fold_set (fun p => IdNum (planet p)) degree).
    rewrite (find_last_occurrence _ pre post x); [reflexivity | |].
    + now apply bool_decide_eq_true_2.
    + intros y Hy. apply bool_decide_eq_false_2. intros [= Heq]. now apply (Hpost y).
  - intros p Hp.
    rewrite (alist_get_fold_set (fun p => IdNum (planet p)) degree).
    rewrite find_no_occurrence; [reflexivity |].
    intros y Hy. apply bool_decide_eq_false_2. intros [= Heq]. now apply (Hp y).
  - intros name.
    rewrite (alist_get_fold_set (fun p => IdNum (planet p)) degree).
    rewrite find_no_occurrence; [reflexivity |].
    intros y Hy. now apply bool_decide_eq_false_2.
Qed.

Lemma buildChartData_planet_lookup_witness :
  let resolver := createAnchorResolver (buildChartDataFromRenderData renderTwelve) in
  getObjectLongitude resolver (IdNum 4) = Some 250%Q
  /\ getObjectLongitude resolver (IdNum 5) = None
  /\ getObjectLongitude resolver (IdStr "mars") = None.
Proof.
  pose proof (buildChartData_planet_lookup renderTwelve _ eq_refl) as [H1 [H2 H3]].
  split; [| split].
  - apply (H1 [mkPlanetData 4 10; mkPlanetData 7 99] (mkPlanetData 4 250) []);
      [reflexivity | intros y Hy; inversion Hy].
  - apply H2. intros y Hy.
    repeat (apply elem_of_cons in Hy as [-> | Hy]; [discriminate |]). inversion Hy.
  - apply H3.
Defined.

Lemma NoDup_fmap_middle {X Y : Type} (f : X -> Y) (pre post : list X) (x : X) :
  NoDup (f <$> (pre ++ x :: post)) -> forall y, y ∈ post -> f y <> f x.
Proof.
  rewrite fmap_app, fmap_cons. intros Hnd y Hy Heq.
  apply NoDup_app in Hnd as [_ [_ Hnd]]. apply NoDup_cons in Hnd as [Hx _].
  apply Hx. rewrite <- Heq. apply list_elem_of_fmap. eauto.
Qed.

Lemma built_house_cusps (renderData : RenderData) (hs : list HouseData) :
  houses renderData = Some hs ->
  wellFormedHouses hs ->
  let resolver := createAnchorResolver (buildChartDataFromRenderData renderData) in
  (forall h, h ∈ hs -> getHouseCusp resolver (house h + 1) = Some (cuspDegree h))
  /\ (forall n, (forall h, h ∈ hs -> house h + 1 <> n) -> getHouseCusp resolver n = None).
Proof.
  intros Hhs [Hnodup Hrange]. rewrite Forall_forall in Hrange. cbv zeta.
  unfold createAnchorResolver, buildChartDataFromRenderData.
  cbn [getHouseCusp houseCusps]. rewrite Hhs. cbn [mbind option_bind].
  split.
  - intros h Hh. apply list_elem_of_split in Hh as [pre [post ->]].
    rewrite (alist_get_fold_set (fun h => houseNumberOfIndex (house h)) cuspDegree).
    rewrite (find_last_occurrence _ pre post h); [reflexivity | |].
    + apply bool_decide_eq_true_2, houseNumberOfIndex_in_range, Hrange.
      apply elem_of_app. right. left.
    + intros y Hy. apply bool_decide_eq_false_2.
      rewrite houseNumberOfIndex_in_range
        by (apply Hrange, elem_of_app; right; now right).
      pose proof (NoDup_fmap_middle house pre post h Hnodup y Hy). lia.
  - intros n Hn.
    rewrite (alist_get_fold_set (fun h => houseNumberOfIndex (house h)) cuspDegree).
    rewrite find_no_occurrence; [reflexivity |].
    intros y Hy. apply bool_decide_eq_false_2.
    rewrite houseNumberOfIndex_in_range by now apply Hrange. now apply Hn.
Qed.

(** X7: for render data whose house indices are pairwise different and lie
    between 0 and 11, the resolver of the built chart returns, for house
    number [index + 1], the cusp of the house entry with that index, and
    finds no cusp for a house number that no entry has. *)
Theorem buildChartData_house_cusps (renderData : RenderData) (hs : list HouseData) :
  houses renderData = Some hs ->
  wellFormedHouses hs ->
  let resolver := createAnchorResolver (buildChartDataFromRenderData renderData) in
  (forall h, h ∈ hs -> getHouseCusp resolver (house h + 1) = Some (cuspDegree h))
  /\ (forall n, (forall h, h ∈ hs -> house h + 1 <> n) -> getHouseCusp resolver n = None).
Proof. exact (built_house_cusps renderData hs). Qed.

Ltac solve_wellFormedHouses :=
  split;
  [ vm_compute;
    repeat (apply NoDup_cons; split;
      [intros Hin; repeat (apply elem_of_cons in Hin as [Hin | Hin]; [discriminate |]);
       inversion Hin |]);
    apply NoDup_nil_2
  | vm_compute; repeat (apply Forall_cons; split; [split; discriminate |]);
    apply Forall_nil_2 ].

Lemma renderTwelve_wellFormed :
  exists hs, houses renderTwelve = Some hs /\ wellFormedHouses hs.
Proof. eexists. split; [reflexivity | solve_wellFormedHouses]. Defined.

Lemma buildChartData_house_cusps_witness :
  let resolver := createAnchorResolver (buildChartDataFromRenderData renderTwelve) in
  getHouseCusp resolver (9 + 1) = Some (inject_Z ((100 + 30 * 9) mod 360))
  /\ getHouseCusp resolver 13 = None.
Proof.
  destruct renderTwelve_wellFormed as [hs [Hhs Hwf]].
  pose proof (buildChartData_house_cusps renderTwelve hs Hhs Hwf) as [H1 H2].
  injection Hhs as <-.
  split.
  - apply (H1 (mkHouseData 9 (inject_Z ((100 + 30 * 9) mod 360)))).
    vm_compute. do 2 right. left.
  - apply H2. intros h Hh. destruct Hwf as [_ Hrange].
    rewrite Forall_forall in Hrange. specialize (Hrange h Hh). lia.
Defined.

(** The four angles that the builder derives from the houses. *)
Lemma anglesOfHouses_lookup (hs : list HouseData) :
  let house1 := List.find (fun h => house h =? 0) hs in
  let house10 := List.find (fun h => house h =? 9) hs in
  anglesOfHouses hs !! "ASC" = cuspDegree <$> house1
  /\ anglesOfHouses hs !! "DESC" = (fun h => jsRem (cuspDegree h + 180) 360) <$> house1
  /\ anglesOfHouses hs !! "MC" = cuspDegree <$> house10
  /\ anglesOfHouses hs !! "IC" = (fun h => jsRem (cuspDegree h + 180) 360) <$> house10.
Proof.
  cbv zeta. unfold anglesOfHouses.
  destruct hs as [| h0 hs']; [repeat split; apply lookup_empty |].
  cbv zeta.
  destruct (List.find (fun h => house h =? 0) (h0 :: hs')) as [h1 |];
    destruct (List.find (fun h => house h =? 9) (h0 :: hs')) as [h10 |];
    repeat split; simpl;
    repeat first [ rewrite lookup_insert_eq | rewrite lookup_insert_ne by discriminate
                 | rewrite lookup_empty ];
    reflexivity.
Qed.

Lemma built_angles (renderData : RenderData) (hs : list HouseData) :
  houses renderData = Some hs ->
  wellFormedHouses hs ->
  let resolver := createAnchorResolver (buildChartDataFromRenderData renderData) in
  getAngleLongitude resolver "ASC" = getHouseCusp resolver 1
  /\ getAngleLongitude resolver "MC" = getHouseCusp resolver 10
  /\ getAngleLongitude resolver "DESC"
     = (fun c => jsRem (c + 180) 360) <$> getAngleLongitude resolver "ASC"
  /\ getAngleLongitude resolver "IC"
     = (fun c => jsRem (c + 180) 360) <$> getAngleLongitude resolver "MC".
Proof.
  intros Hhs Hwf.
  pose proof (built_house_cusps renderData hs Hhs Hwf) as [Hin Hout].
  cbv zeta in *.
  assert (Hangle : forall a,
    getAngleLongitude (createAnchorResolver (buildChartDataFromRenderData renderData)) a
    = anglesOfHouses hs !! a).
  { intros a. unfold createAnchorResolver, buildChartDataFromRenderData.
    cbn [getAngleLongitude]. unfold getAngleLon. cbn [angleLongitudes].
    now rewrite Hhs. }
  destruct (anglesOfHouses_lookup hs) as [Hasc [Hdesc [Hmc Hic]]]. cbv zeta in *.
  assert (Hfind : forall i, 
    cuspDegree <$> List.find (fun h => house h =? i) hs
    = getHouseCusp (createAnchorResolver (buildChartDataFromRenderData renderData)) (i + 1)).
  { intros i. destruct (List.find (fun h => house h =? i) hs) as [h |] eqn:Hf.
    - apply find_some in Hf as [Hh Hi]. apply Z.eqb_eq in Hi as <-.
      symmetry. apply Hin. now apply list_elem_of_In.
    - symmetry. apply Hout. intros h Hh Heq.
      apply list_elem_of_In in Hh.
      pose proof (find_none _ _ Hf h Hh) as Hi. simpl in Hi.
      apply Z.eqb_neq in Hi. lia. }
  rewrite !Hangle, Hasc, Hmc, Hdesc, Hic.
  split; [apply (Hfind 0) |]. split; [apply (Hfind 9) |].
  split; [now destruct (List.find _ hs) | now destruct (List.find (fun h => house h =? 9) hs)].
Qed.

(** X8: in a chart built from render data whose house indices are pairwise
    different and lie between 0 and 11, the ASC is the cusp of house 1 and
    the MC is the cusp of house 10 (each absent when the house is), the DESC
    is [(ASC + 180) % 360] and the IC is [(MC + 180) % 360]. *)
Theorem buildChartData_angles (renderData : RenderData) (hs : list HouseData) :
  houses renderData = Some hs ->
  wellFormedHouses hs ->
  let resolver := createAnchorResolver (buildChartDataFromRenderData renderData) in
  getAngleLongitude resolver "ASC" = getHouseCusp resolver 1
  /\ getAngleLongitude resolver "MC" = getHouseCusp resolver 10
  /\ getAngleLongitude resolver "DESC"
     = (fun c => jsRem (c + 180) 360) <$> getAngleLongitude resolver "ASC"
  /\ getAngleLongitude resolver "IC"
     = (fun c => jsRem (c + 180) 360) <$> getAngleLongitude resolver "MC".
Proof. exact (built_angles renderData hs). Qed.

Lemma buildChartData_angles_witness :
  let resolver := createAnchorResolver (buildChartDataFromRenderData renderTwelve) in
  getAngleLongitude resolver "ASC" = getHouseCusp resolver 1
  /\ getAngleLongitude resolver "MC" = getHouseCusp resolver 10
  /\ getAngleLongitude resolver "DESC"
     = (fun c => jsRem (c + 180) 360) <$> getAngleLongitude resolver "ASC"
  /\ getAngleLongitude resolver "IC"
     = (fun c => jsRem (c + 180) 360) <$> getAngleLongitude resolver "MC".
Proof.
  destruct renderTwelve_wellFormed as [hs [Hhs Hwf]].
  exact (buildChartData_angles renderTwelve hs Hhs Hwf).
Defined.

Lemma jsRem_opposite (c : Q) :
  let d := jsRem (c + 180) 360 in
  ((0 <= c + 180)%Q -> (0 <= d < 360)%Q /\ (d == normalizeDeg (c + 180))%Q)
  /\ ((c + 180 < 0)%Q -> (- (360) < d <= 0)%Q).
Proof.
  cbv zeta. split.
  - intros Hc. pose proof (jsRem_360_nonneg _ Hc) as Hr. split; [exact Hr |].
    symmetry. apply (normalizeDeg_unique _ _ (Qtrunc ((c + 180) / 360))); try tauto.
    unfold jsRem. lra.
  - intros Hc. pose proof (jsRem_360_bounds (c + 180)) as [Hlo _]. split; [exact Hlo |].
    unfold jsRem.
    assert (Hq : ((c + 180) / 360 <= 0)%Q) by (apply Qle_shift_div_r; lra).
    rewrite (Qtrunc_nonpos _ Hq).
    pose proof (Qfloor_le (- ((c + 180) / 360))) as Hfl.
    rewrite inject_Z_opp.
    assert (Ha : (c + 180 == 360 * ((c + 180) / 360))%Q) by field.
    set (t := inject_Z (Qfloor (- ((c + 180) / 360)))) in *.
    set (q := ((c + 180) / 360)%Q) in *. lra.
Qed.

(** X9: in a built chart whose ASC is [c], the DESC is present; when [c] is
    at least -180 it lies in [0,360) and is [c + 180] modulo 360; when [c]
    is below -180 it is not positive, because [%] keeps the sign of its left
    operand. *)
Theorem buildChartData_desc (renderData : RenderData) (c : Q) :
  let chart := buildChartDataFromRenderData renderData in
  getAngleLon chart "ASC" = Some c ->
  exists d, getAngleLon chart "DESC" = Some d
    /\ ((0 <= c + 180)%Q -> (0 <= d < 360)%Q /\ (d == normalizeDeg (c + 180))%Q)
    /\ ((c + 180 < 0)%Q -> (- (360) < d <= 0)%Q).
Proof.
  cbv zeta. unfold buildChartDataFromRenderData, getAngleLon. cbn [angleLongitudes].
  cbn [mbind option_bind].
  destruct (houses renderData) as [hs |]; [| now rewrite lookup_empty].
  destruct (anglesOfHouses_lookup hs) as [-> [-> _]].
  destruct (List.find _ hs) as [h1 |]; [| discriminate].
  simpl. intros [= <-]. eexists. split; [reflexivity |]. apply jsRem_opposite.
Qed.

Lemma buildChartData_desc_witness :
  exists d, getAngleLon (buildChartDataFromRenderData renderTwelve) "DESC" = Some d
    /\ ((0 <= 100 + 180)%Q -> (0 <= d < 360)%Q /\ (d == normalizeDeg (100 + 180))%Q)
    /\ ((100 + 180 < 0)%Q -> (- (360) < d <= 0)%Q).
Proof.
  apply (buildChartData_desc renderTwelve 100). vm_compute. reflexivity.
Defined.

Lemma elem_of_alist_set {K V : Type} `{EqDecision K} (e : K * V) (k : K) (v : V)
    (m : list (K * V)) :
  e ∈ alist_set k v m -> e = (k, v) \/ e ∈ m.
Proof.
  induction m as [| e0 m IH]; simpl.
  - intros He. apply list_elem_of_singleton in He. now left.
  - destruct (bool_decide (fst e0 = k)).
    + intros He. apply elem_of_cons in He as [-> | He]; [now left | right; now right].
    + intros He. apply elem_of_cons in He as [-> | He]; [right; left |].
      destruct (IH He) as [-> | Hin]; [now left | right; now right].
Qed.

Lemma elem_of_fold_alist_set {K V X : Type} `{EqDecision K} (key : X -> K) (val : X -> V)
    (xs : list X) (m : list (K * V)) (e : K * V) :
  e ∈ fold_left (fun m x => alist_set (key x) (val x) m) xs m ->
  e ∈ m \/ exists x, x ∈ xs /\ e = (key x, val x).
Proof.
  revert m. induction xs as [| x xs IH]; intros m; simpl; [now left |].
  intros He. destruct (IH _ He) as [Hin | [y [Hy ->]]].
  - apply elem_of_alist_set in Hin as [-> | Hin]; [| now left].
    right. exists x. split; [left | reflexivity].
  - right. exists y. split; [now right | reflexivity].
Qed.

Lemma built_asc_in_house_one
    (renderData : RenderData) (hs : list HouseData) (asc : Q)
    (cusps : list (HouseNumber * Q)) :
  houses renderData = Some hs ->
  wellFormedHouses hs ->
  (forall x y, x ∈ hs -> y ∈ hs ->
     (normalizeDeg (cuspDegree x) == normalizeDeg (cuspDegree y))%Q -> x = y) ->
  let chart := buildChartDataFromRenderData renderData in
  getAngleLon chart "ASC" = Some asc ->
  houseCusps chart = Some cusps ->
  getHouseForLongitude asc cusps = Some 1.
Proof.
  intros Hhs Hwf Hdistinct chart Hasc Hcusps.
  pose proof (built_angles renderData hs Hhs Hwf) as [Hone _].
  pose proof (built_house_cusps renderData hs Hhs Hwf) as [Hin _].
  cbv zeta in Hone, Hin. fold chart in Hone, Hin.
  cbn [createAnchorResolver getAngleLongitude getHouseCusp] in Hone, Hin.
  rewrite Hasc, Hcusps in Hone. cbn [mbind option_bind] in Hone.
  rewrite Hcusps in Hin. cbn [mbind option_bind] in Hin.
  symmetry in Hone. apply alist_get_elem_of in Hone as Hmem.
  (* the house entry that carries the ASC *)
  assert (Hh1 : exists h1, h1 ∈ hs /\ house h1 = 0 /\ cuspDegree h1 = asc).
  { unfold chart, buildChartDataFromRenderData, getAngleLon in Hasc.
    cbn [angleLongitudes mbind option_bind] in Hasc. rewrite Hhs in Hasc.
    destruct (anglesOfHouses_lookup hs) as [Ha _]. rewrite Ha in Hasc.
    destruct (List.find _ hs) as [h1 |] eqn:Hf; [| discriminate].
    injection Hasc as <-. apply find_some in Hf as [Hh Hi].
    exists h1. split; [now apply list_elem_of_In |]. split; [now apply Z.eqb_eq | reflexivity]. }
  destruct Hh1 as [h1 [Hh1 [Hidx Hc1]]].
  apply (house_on_own_cusp asc cusps 1 asc Hmem); [reflexivity |].
  intros h' c' Hin' Heq.
  unfold chart, buildChartDataFromRenderData in Hcusps. cbn [houseCusps] in Hcusps.
  rewrite Hhs in Hcusps. injection Hcusps as <-.
  apply elem_of_fold_alist_set in Hin' as [Hnil | [x [Hx [= -> ->]]]]; [inversion Hnil |].
  rewrite <- Hc1 in Heq. rewrite (Hdistinct x h1 Hx Hh1 Heq).
  rewrite houseNumberOfIndex_in_range by lia. lia.
Qed.

(** X10: in a chart built from render data whose house indices are pairwise
    different and lie between 0 and 11 and whose cusps are pairwise different
    modulo 360, the house locator places the ASC in house 1. *)
Theorem buildChartData_asc_in_house_one
    (renderData : RenderData) (hs : list HouseData) (asc : Q)
    (cusps : list (HouseNumber * Q)) :
  houses renderData = Some hs ->
  wellFormedHouses hs ->
  (forall x y, x ∈ hs -> y ∈ hs ->
     (normalizeDeg (cuspDegree x) == normalizeDeg (cuspDegree y))%Q -> x = y) ->
  let chart := buildChartDataFromRenderData renderData in
  getAngleLon chart "ASC" = Some asc ->
  houseCusps chart = Some cusps ->
  getHouseForLongitude asc cusps = Some 1.
Proof. exact (built_asc_in_house_one renderData hs asc cusps). Qed.

Ltac solve_distinct_cusps Hx Hy :=
  vm_compute in Hx; vm_compute in Hy;
  repeat (apply elem_of_cons in Hx as [-> | Hx]);
  try (inversion Hx; fail);
  repeat (apply elem_of_cons in Hy as [-> | Hy]);
  try (inversion Hy; fail);
  vm_compute; intros Hc; first [reflexivity | discriminate].

Lemma renderTwelve_distinct_cusps :
  forall hs, houses renderTwelve = Some hs ->
  forall x y, x ∈ hs -> y ∈ hs ->
    (normalizeDeg (cuspDegree x) == normalizeDeg (cuspDegree y))%Q -> x = y.
Proof. intros hs [= <-] x y Hx Hy. solve_distinct_cusps Hx Hy. Defined.

Lemma buildChartData_asc_in_house_one_witness :
  exists asc cusps,
    getAngleLon (buildChartDataFromRenderData renderTwelve) "ASC" = Some asc
    /\ houseCusps (buildChartDataFromRenderData renderTwelve) = Some cusps
    /\ getHouseForLongitude asc cusps = Some 1.
Proof.
  destruct renderTwelve_wellFormed as [hs [Hhs Hwf]].
  eexists _, _. split; [reflexivity |]. split; [reflexivity |].
  apply (buildChartData_asc_in_house_one renderTwelve hs _ _ Hhs Hwf
           (renderTwelve_distinct_cusps hs Hhs) eq_refl eq_refl).
Defined.

(** ** Program evaluation, continued *)

Section Trace.

Variables (locks : list LockRule) (chart : ChartSnapshot).

(** The result of the loop in terms of the rules that fired. *)
Lemma evalLoop_firedRules (rs : list OrientationRule) (acc : EvalResult) :
  let r := fold_left (evalStep locks chart) rs acc in
  let fired := firedRules locks chart acc rs in
  out_frame r = fold_left (fun f rule => applyEffect (effect rule) f) fired (out_frame acc)
  /\ out_locks r = out_locks acc ++ flat_map (fun rule => default [] (ruleLocks rule)) fired
  /\ appliedRuleIds (out_state r)
     = appliedRuleIds (out_state acc) ∪ list_to_set (id <$> fired).
Proof.
  cbv zeta. revert acc. induction rs as [| rule rs IH]; intros acc.
  - simpl. rewrite app_nil_r. split; [reflexivity |]. split; [reflexivity |].
    now rewrite union_empty_r_L.
  - cbn [fold_left firedRules].
    destruct (ruleTriggered rule chart (out_state acc)) eqn:Hfire.
    + destruct (IH (evalStep locks chart acc rule)) as [Hf [Hl Ha]].
      rewrite Hf, Hl, Ha.
      assert (Hstep : evalStep locks chart acc rule
                      = {| out_frame := applyEffect (effect rule) (out_frame acc);
                           out_locks := out_locks acc ++ default [] (ruleLocks rule);
                           out_state := res_newState (applyRule rule (out_frame acc) locks
                                                        chart (out_state acc)) |})
        by (unfold evalStep; now rewrite Hfire).
      rewrite Hstep. cbn [out_frame out_locks out_state flat_map fmap list_fmap list_to_set].
      split; [reflexivity |]. split; [now rewrite <- app_assoc |].
      unfold applyRule. cbn [res_newState appliedRuleIds].
      now rewrite <- union_assoc_L.
    + assert (Hstep : evalStep locks chart acc rule = acc)
        by (unfold evalStep; now rewrite Hfire).
      rewrite Hstep. apply IH.
Qed.

(** When no trigger holds in the state at hand, the loop changes nothing. *)
Lemma evalLoop_nothing_fires (rs : list OrientationRule) (acc : EvalResult) :
  Forall (fun rule => ruleTriggered rule chart (out_state acc) = false) rs ->
  fold_left (evalStep locks chart) rs acc = acc.
Proof.
  induction 1 as [| rule rs Hrule Hrs IH]; [reflexivity |].
  simpl. unfold evalStep at 2. now rewrite Hrule.
Qed.

End Trace.

Lemma firedRules_cons (locks : list LockRule) (chart : ChartSnapshot)
    (acc : EvalResult) (rule : OrientationRule) (rs : list OrientationRule) :
  firedRules locks chart acc (rule :: rs)
  = (if ruleTriggered rule chart (out_state acc) then [rule] else [])
    ++ firedRules locks chart (evalStep locks chart acc rule) rs.
Proof.
  cbn [firedRules]. unfold evalStep.
  destruct (ruleTriggered rule chart (out_state acc)); reflexivity.
Qed.

(** The fired rules are the rules at the positions that fire, in order. *)
Lemma firedIn_firesAt (program : OrientationProgram) (chart : ChartSnapshot)
    (previousState : option OrientationRuntimeState) :
  firedIn program chart previousState
  = omap (fun i => if firesAt program chart previousState i
                   then default [] (rules program) !! i else None)
      (seq 0 (length (default [] (rules program)))).
Proof.
  unfold firedIn.
  set (rs := default [] (rules program)).
  set (ls := default [] (locks program)).
  assert (Hgen : forall l pre, rs = pre ++ l ->
    firedRules ls chart (evalLoop program chart previousState pre) l
    = omap (fun i => if firesAt program chart previousState i then rs !! i else None)
        (seq (length pre) (length l))).
  { induction l as [| r l IH]; intros pre Hrs; [reflexivity |].
    rewrite firedRules_cons. cbn [length seq]. cbn [omap list_omap].
    assert (Hi : rs !! length pre = Some r)
      by (rewrite Hrs; apply list_lookup_middle; reflexivity).
    assert (Hfire : firesAt program chart previousState (length pre)
                    = ruleTriggered r chart
                        (out_state (evalLoop program chart previousState pre))).
    { unfold firesAt. fold rs. rewrite Hi. rewrite Hrs at 1.
      now rewrite take_app_length. }
    rewrite Hfire, Hi.
    assert (Hstep : evalStep ls chart (evalLoop program chart previousState pre) r
                    = evalLoop program chart previousState (pre ++ [r])).
    { unfold evalLoop. now rewrite fold_left_app. }
    rewrite Hstep, (IH (pre ++ [r])) by (now rewrite <- app_assoc).
    rewrite length_app, Nat.add_1_r.
    destruct (ruleTriggered r chart _); reflexivity. }
  apply (Hgen rs []). reflexivity.
Qed.

(** X11: the frame that an evaluation returns is the base frame with the
    effects of the fired rules applied in rule order; the locks are the
    static locks followed by the locks of the fired rules in rule order; the
    applied rule identifiers are the previous ones together with the
    identifiers of the fired rules.  The fired rules are the rules at the
    positions whose trigger holds in the state the loop has reached there. *)
Theorem evalOrientationProgram_fired_rules
    (program : OrientationProgram) (chart : ChartSnapshot)
    (previousState : option OrientationRuntimeState) :
  let result := evalOrientationProgram program chart previousState in
  let fired := firedIn program chart previousState in
  out_frame result
    = fold_left (fun f rule => applyEffect (effect rule) f) fired (baseFrame program)
  /\ out_locks result
     = default [] (locks program)
       ++ flat_map (fun rule => default [] (ruleLocks rule)) fired
  /\ appliedRuleIds (out_state result)
     = appliedRuleIds (default emptyState previousState) ∪ list_to_set (id <$> fired)
  /\ fired
     = omap (fun i => if firesAt program chart previousState i
                      then default [] (rules program) !! i else None)
         (seq 0 (length (default [] (rules program)))).
Proof.
  cbv zeta. split; [| split; [| split]]; [| | | apply firedIn_firesAt];
    unfold evalOrientationProgram, firedIn, evalLoop; cbn [out_frame out_locks out_state];
    destruct (evalLoop_firedRules (default [] (locks program)) chart
                (default [] (rules program))
                {| out_frame := baseFrame program; out_locks := [];
                   out_state := default emptyState previousState |}) as [Hf [Hl Ha]];
    cbv zeta in Hf, Hl, Ha; rewrite ?Hf, ?Hl, ?Ha; reflexivity.
Qed.

(** X12: when no rule's trigger holds in the previous state (in particular
    when the program has no rules, or only custom triggers), the evaluation
    returns the base frame, the static locks and the previous state
    unchanged; the recorded house positions are not updated. *)
Theorem evalOrientationProgram_nothing_fires
    (program : OrientationProgram) (chart : ChartSnapshot)
    (previousState : option OrientationRuntimeState) :
  Forall (fun rule => ruleTriggered rule chart (default emptyState previousState) = false)
    (default [] (rules program)) ->
  evalOrientationProgram program chart previousState
  = {| out_frame := baseFrame program;
       out_locks := default [] (locks program);
       out_state := default emptyState previousState |}.
Proof.
  intros Hnone. unfold evalOrientationProgram, evalLoop.
  rewrite evalLoop_nothing_fires by exact Hnone.
  cbn. now rewrite app_nil_r.
Qed.

Lemma evalOrientationProgram_nothing_fires_witness :
  evalOrientationProgram programAll (chartEven 15 100) (Some (stateAscRecorded 1))
  = {| out_frame := frameAscLeft;
       out_locks := [lockMoonHouses];
       out_state := stateAscRecorded 1 |}.
Proof.
  apply (evalOrientationProgram_nothing_fires programAll (chartEven 15 100)
           (Some (stateAscRecorded 1))).
  repeat (apply Forall_cons; split; [vm_compute; exact eq_refl |]). apply Forall_nil_2.
Defined.

(** ** The keys of the recorded positions, continued *)

Lemma wellKeyed_emptyState : wellKeyed emptyState.
Proof. intros key h. unfold getPrevHouse. simpl. rewrite lookup_empty. discriminate. Qed.

(** The writes of [applyRule] change the recorded positions only at keys
    that end in the decimal form of the house they store. *)
Lemma trackPositions_lookup (chart : ChartSnapshot) (m : gmap string HouseNumber)
    (key : string) (h : HouseNumber) :
  trackPositions chart m !! key = Some h ->
  m !! key = Some h \/ exists subject, key = (subject +:+ ":" +:+ showZ h)%string.
Proof.
  unfold trackPositions.
  destruct (houseCusps chart) as [cusps |]; [| now left].
  set (m1 := match getAngleLon chart "ASC" with
             | Some ascLon =>
                 match getHouseForLongitude ascLon cusps with
                 | Some ascHouse => <[ascKey ascHouse := ascHouse]> m
                 | None => m
                 end
             | None => m
             end).
  assert (H1 : m1 !! key = Some h ->
               m !! key = Some h \/ exists subject, key = (subject +:+ ":" +:+ showZ h)%string).
  { unfold m1. destruct (getAngleLon chart "ASC") as [ascLon |]; [| now left].
    destruct (getHouseForLongitude ascLon cusps) as [ascHouse |]; [| now left].
    destruct (decide (ascKey ascHouse = key)) as [<- | Hne].
    - rewrite lookup_insert_eq. intros [= <-]. right. now exists "ASC"%string.
    - rewrite lookup_insert_ne by exact Hne. now left. }
  destruct (planetLongitudes chart) as [planets |]; [| exact H1].
  revert H1. generalize m1. clear m1.
  induction planets as [| e planets IH]; intros m1 H1; [exact H1 |].
  cbn [fold_left]. apply IH. unfold trackPlanet.
  destruct (getHouseForLongitude (snd e) cusps) as [house0 |]; [| exact H1].
  destruct (decide (planetKey (fst e) house0 = key)) as [<- | Hne].
  - rewrite lookup_insert_eq. intros [= <-]. right. now exists (showIdent (fst e)).
  - rewrite lookup_insert_ne by exact Hne. exact H1.
Qed.

(** One iteration keeps the keys well formed. *)
Lemma evalStep_wellKeyed (locks : list LockRule) (chart : ChartSnapshot)
    (acc : EvalResult) (rule : OrientationRule) :
  wellKeyed (out_state acc) -> wellKeyed (out_state (evalStep locks chart acc rule)).
Proof.
  intros Hwk. unfold evalStep.
  destruct (ruleTriggered rule chart (out_state acc)); [| exact Hwk].
  intros key h. unfold getPrevHouse. cbn. intros Hlook.
  apply trackPositions_lookup in Hlook as [Hold | Hnew]; [| exact Hnew].
  apply Hwk. unfold getPrevHouse.
  destruct (previousHousePositions (out_state acc)); [exact Hold |].
  simpl in Hold. now rewrite lookup_empty in Hold.
Qed.

(** X13: an evaluation keeps the recorded positions well keyed: if every
    recorded house of the previous state is stored under a key that ends in
    a colon and the decimal form of that house, so is every recorded house of
    the returned state.  The state of a first evaluation is well keyed. *)
Theorem evalOrientationProgram_wellKeyed
    (program : OrientationProgram) (chart : ChartSnapshot)
    (previousState : option OrientationRuntimeState) :
  wellKeyed (default emptyState previousState) ->
  wellKeyed (out_state (evalOrientationProgram program chart previousState)).
Proof.
  intros Hwk. unfold evalOrientationProgram, evalLoop. cbn [out_state].
  apply (evalLoop_invariant _ chart wellKeyed); [| exact Hwk].
  intros acc rule. apply evalStep_wellKeyed.
Qed.

Lemma evalOrientationProgram_wellKeyed_witness :
  wellKeyed (out_state (evalOrientationProgram programAll (chartEven 15 40) None)).
Proof.
  apply (evalOrientationProgram_wellKeyed programAll (chartEven 15 40) None).
  exact wellKeyed_emptyState.
Defined.

Lemma ascLeavesHouse_on_wellKeyed
    (rule : OrientationRule) (chart : ChartSnapshot) (state : OrientationRuntimeState)
    (target : HouseNumber) (ascLon : Q) (cusps : list (HouseNumber * Q)) :
  wellKeyed state ->
  trigger rule = AscLeavesHouse target ->
  getAngleLon chart "ASC" = Some ascLon ->
  houseCusps chart = Some cusps ->
  (ruleTriggered rule chart state = true
   <-> (id rule ∉ appliedRuleIds state)
       /\ getHouseForLongitude ascLon cusps <> Some target
       /\ getPrevHouse state (ascKey target) = Some target).
Proof.
  intros Hwk Ht Hasc Hcusps.
  destruct (decide (id rule ∈ appliedRuleIds state)) as [Hin | Hnotin].
  - unfold ruleTriggered. rewrite Ht, Hasc, Hcusps. cbv zeta.
    rewrite (bool_decide_eq_true_2 _ Hin). split; [discriminate | tauto].
  - destruct (ascLeavesHouse_paths rule chart state target ascLon cusps
                Ht Hasc Hcusps Hnotin) as [Hleft Hinside].
    destruct (decide (getHouseForLongitude ascLon cusps = Some target)) as [Hcur | Hcur].
    + rewrite (Hinside Hcur). split; [| tauto].
      intros [p [Hp Hne]]. exfalso. apply Hne.
      destruct (Hwk _ _ Hp) as [subject Hkey].
      symmetry. now apply (key_determines_house "ASC" subject).
    + rewrite (Hleft Hcur). tauto.
Qed.

(** X14: in a state whose recorded positions are well keyed, and so in every
    state that evaluations starting from no state have produced, the
    [ascLeavesHouse] trigger on a snapshot that has the ASC and the cusps
    fires exactly when the rule has not been applied, the ASC's current house
    differs from the rule's house and the house recorded under
    ["ASC:{house}"] is the rule's house. *)
Theorem ascLeavesHouse_wellKeyed
    (rule : OrientationRule) (chart : ChartSnapshot) (state : OrientationRuntimeState)
    (target : HouseNumber) (ascLon : Q) (cusps : list (HouseNumber * Q)) :
  wellKeyed state ->
  trigger rule = AscLeavesHouse target ->
  getAngleLon chart "ASC" = Some ascLon ->
  houseCusps chart = Some cusps ->
  (ruleTriggered rule chart state = true
   <-> (id rule ∉ appliedRuleIds state)
       /\ getHouseForLongitude ascLon cusps <> Some target
       /\ getPrevHouse state (ascKey target) = Some target).
Proof. exact (ascLeavesHouse_on_wellKeyed rule chart state target ascLon cusps). Qed.

Lemma ascLeavesHouse_wellKeyed_witness :
  ruleTriggered ruleAscLeaves1 (chartEven 45 100) (stateAscRecorded 1) = true.
Proof.
  apply (ascLeavesHouse_wellKeyed ruleAscLeaves1 (chartEven 45 100) (stateAscRecorded 1)
           1 45 evenCusps).
  - intros key h. unfold getPrevHouse, stateAscRecorded. cbn.
    intros Hlook. apply lookup_singleton_Some in Hlook as [<- <-]. now exists "ASC"%string.
  - reflexivity.
  - reflexivity.
  - reflexivity.
  - split; [apply not_elem_of_empty |]. split; [vm_compute; discriminate | reflexivity].
Defined.

(** ** Recorded positions across evaluations, continued *)

Lemma evalStep_keeps (locks : list LockRule) (chart : ChartSnapshot)
    (key subject : string) (h : HouseNumber)
    (acc : EvalResult) (rule : OrientationRule) :
  key = (subject +:+ ":" +:+ showZ h)%string ->
  getPrevHouse (out_state acc) key = Some h ->
  getPrevHouse (out_state (evalStep locks chart acc rule)) key = Some h.
Proof.
  intros Hkey Hrec. unfold evalStep.
  destruct (ruleTriggered rule chart (out_state acc)); [| exact Hrec].
  unfold getPrevHouse in *. simpl.
  apply (trackPositions_keeps chart key h subject Hkey).
  destruct (previousHousePositions (out_state acc)); [exact Hrec | discriminate].
Qed.

(** X15: a house recorded in a well-keyed state is never removed or
    replaced: after an evaluation on any snapshot, the returned state holds
    the same house under the same key. *)
Theorem evalOrientationProgram_keeps_recorded
    (program : OrientationProgram) (chart : ChartSnapshot)
    (state : OrientationRuntimeState) (key : string) (h : HouseNumber) :
  wellKeyed state ->
  getPrevHouse state key = Some h ->
  getPrevHouse (out_state (evalOrientationProgram program chart (Some state))) key = Some h.
Proof.
  intros Hwk Hrec. destruct (Hwk key h Hrec) as [subject Hkey].
  unfold evalOrientationProgram, evalLoop. cbn [out_state].
  apply (evalLoop_invariant _ chart (fun st => getPrevHouse st key = Some h));
    [| exact Hrec].
  intros acc rule. now apply (evalStep_keeps _ _ key subject h).
Qed.

Lemma evalOrientationProgram_keeps_recorded_witness :
  getPrevHouse
    (out_state (evalOrientationProgram programAll (chartEven 45 100)
                  (Some (stateAscRecorded 1)))) "ASC:1" = Some 1.
Proof.
  apply (evalOrientationProgram_keeps_recorded programAll (chartEven 45 100)
           (stateAscRecorded 1) "ASC:1" 1).
  - intros key h. unfold getPrevHouse, stateAscRecorded. cbn.
    intros Hlook. apply lookup_singleton_Some in Hlook as [<- <-]. now exists "ASC"%string.
  - reflexivity.
Defined.

Section FiredBefore.

Variable rule : OrientationRule.

Lemma firedBefore_evalStep (locks : list LockRule) (chart : ChartSnapshot)
    (acc : EvalResult) (r : OrientationRule) :
  firedBefore rule (out_state acc) ->
  firedBefore rule (out_state (evalStep locks chart acc r)).
Proof.
  unfold firedBefore. destruct (trigger rule) as [t | p t | |]; try tauto.
  - apply evalStep_applied.
  - apply evalStep_recorded.
Qed.

Lemma firedBefore_evalLoop (locks : list LockRule) (chart : ChartSnapshot)
    (rs : list OrientationRule) (acc : EvalResult) :
  firedBefore rule (out_state acc) ->
  firedBefore rule (out_state (fold_left (evalStep locks chart) rs acc)).
Proof.
  apply (evalLoop_invariant locks chart (firedBefore rule)).
  intros a r. apply firedBefore_evalStep.
Qed.

Lemma firedBefore_evalOrientationProgram (program : OrientationProgram)
    (chart : ChartSnapshot) (state : OrientationRuntimeState) :
  firedBefore rule state ->
  firedBefore rule (out_state (evalOrientationProgram program chart (Some state))).
Proof. intros H. now apply firedBefore_evalLoop. Qed.

(** A rule that has fired before does not fire, whatever the snapshot. *)
Lemma firedBefore_not_triggered (chart : ChartSnapshot) (state : OrientationRuntimeState) :
  firedBefore rule state -> ruleTriggered rule chart state = false.
Proof.
  unfold firedBefore, ruleTriggered.
  destruct (trigger rule) as [t | p t | |]; try tauto; intros Hb.
  - destruct (getAngleLon chart "ASC"); [| reflexivity].
    destruct (houseCusps chart); [| reflexivity].
    cbv zeta. now rewrite (bool_decide_eq_true_2 _ Hb).
  - destruct (getPlanetLon chart p); [| reflexivity].
    destruct (houseCusps chart); [| reflexivity].
    cbv zeta. rewrite Hb. unfold strictEq.
    rewrite (bool_decide_eq_true_2 (Some t = Some t) eq_refl).
    now rewrite andb_false_r.
Qed.

(** Applying an edge-triggered rule that fires leaves its mark in the
    state. *)
Lemma firedBefore_applyRule (frame0 : ViewFrame) (locks : list LockRule)
    (chart : ChartSnapshot) (state : OrientationRuntimeState) :
  edgeTriggered (trigger rule) = true ->
  ruleTriggered rule chart state = true ->
  firedBefore rule (res_newState (applyRule rule frame0 locks chart state)).
Proof.
  unfold firedBefore, ruleTriggered.
  destruct (trigger rule) as [t | p t | |]; try discriminate; intros _ Hfire.
  - simpl. apply elem_of_union. right. now apply elem_of_singleton.
  - destruct (getPlanetLon chart p) as [lon |] eqn:Hlon; [| discriminate].
    destruct (houseCusps chart) as [cusps |] eqn:Hcusps; [| discriminate].
    cbv zeta in Hfire. unfold strictEq in Hfire at 1.
    destruct (bool_decide (getHouseForLongitude lon cusps = Some t)) eqn:Hcur;
      [| discriminate].
    apply bool_decide_eq_true_1 in Hcur.
    unfold getPrevHouse. simpl.
    now apply (trackPositions_records_planet chart cusps p lon).
Qed.

End FiredBefore.

Lemma evalSequence_firedBefore (rule : OrientationRule) (program : OrientationProgram)
    (charts : list ChartSnapshot) (state : OrientationRuntimeState) :
  firedBefore rule state ->
  exists state', evalSequence program charts (Some state) = Some state'
                 /\ firedBefore rule state'.
Proof.
  revert state. induction charts as [| chart charts IH]; intros state Hb.
  - exists state. split; [reflexivity | exact Hb].
  - cbn [evalSequence fold_left]. apply IH.
    now apply firedBefore_evalOrientationProgram.
Qed.

(** X16: once an edge-triggered rule ([ascLeavesHouse] or
    [planetCrossesHouse]) has fired in an evaluation, it does not fire in any
    later evaluation that starts from the carried-forward state, whatever
    snapshots the later evaluations are given: an [ascLeavesHouse] rule fires
    at most once, and a [planetCrossesHouse] rule does not detect a second
    entry of the planet into the house. *)
Theorem edge_triggered_rule_fires_once
    (program : OrientationProgram) (chart : ChartSnapshot)
    (previousState : option OrientationRuntimeState)
    (i : nat) (rule : OrientationRule)
    (later : list ChartSnapshot) (chart' : ChartSnapshot) :
  default [] (rules program) !! i = Some rule ->
  edgeTriggered (trigger rule) = true ->
  firesAt program chart previousState i = true ->
  forall j,
    default [] (rules program) !! j = Some rule ->
    firesAt program chart'
      (evalSequence program (chart :: later) previousState) j = false.
Proof.
  intros Hi Hedge Hfire j Hj.
  assert (H1 : firedBefore rule
                 (out_state (evalOrientationProgram program chart previousState))).
  { unfold evalOrientationProgram. cbn [out_state].
    rewrite (evalLoop_split program chart previousState _ i rule Hi).
    apply firedBefore_evalLoop.
    unfold firesAt in Hfire. rewrite Hi in Hfire.
    unfold evalStep. rewrite Hfire. cbn [out_state].
    now apply firedBefore_applyRule. }
  cbn [evalSequence fold_left].
  destruct (evalSequence_firedBefore rule program later _ H1) as [state' [Hseq Hb]].
  unfold evalSequence in Hseq. rewrite Hseq.
  unfold firesAt. rewrite Hj. apply firedBefore_not_triggered.
  unfold evalLoop. now apply firedBefore_evalLoop.
Qed.

Lemma edge_triggered_rule_fires_once_witness :
  firesAt programAll (chartEven 15 40) None 1 = true
  /\ firesAt programAll (chartEven 15 40)
       (evalSequence programAll
          [chartEven 15 40; chartEven 15 100; chartEven 15 200] None) 1 = false.
Proof.
  split; [vm_compute; exact eq_refl |].
  apply (edge_triggered_rule_fires_once programAll (chartEven 15 40) None 1
           ruleMarsEnters2 [chartEven 15 100; chartEven 15 200] (chartEven 15 40)
           eq_refl eq_refl); [vm_compute; exact eq_refl | reflexivity].
Defined.

(** X17: a [planetCrossesAngle] rule is not edge-triggered: whether it fires
    in an evaluation depends on the snapshot alone, not on the previous
    state nor on the rules before it; if it fires once it fires in every
    evaluation on that snapshot, also with the returned state carried
    forward. *)
Theorem planetCrossesAngle_fires_every_time
    (program : OrientationProgram) (chart : ChartSnapshot)
    (i : nat) (rule : OrientationRule) (planet0 : Ident) (angle : AngleType)
    (previousState previousState' : option OrientationRuntimeState) :
  default [] (rules program) !! i = Some rule ->
  trigger rule = PlanetCrossesAngle planet0 angle ->
  firesAt program chart previousState i = firesAt program chart previousState' i
  /\ firesAt program chart
       (Some (out_state (evalOrientationProgram program chart previousState))) i
     = firesAt program chart previousState i.
Proof.
  intros Hi Ht.
  assert (Hany : forall st st', ruleTriggered rule chart st = ruleTriggered rule chart st')
    by (intros st st'; unfold ruleTriggered; now rewrite Ht).
  unfold firesAt. rewrite Hi. split; apply Hany.
Qed.

Lemma planetCrossesAngle_fires_every_time_witness :
  firesAt programAll (chartMarsAt 11) None 3
  = firesAt programAll (chartMarsAt 11) (Some (stateAscRecorded 5)) 3
  /\ firesAt programAll (chartMarsAt 11)
       (Some (out_state (evalOrientationProgram programAll (chartMarsAt 11) None))) 3
     = firesAt programAll (chartMarsAt 11) None 3.
Proof.
  exact (planetCrossesAngle_fires_every_time programAll (chartMarsAt 11) 3 ruleMarsAsc
           (IdStr "mars") "ASC" None (Some (stateAscRecorded 5)) eq_refl eq_refl).
Defined.

(** ** The ASC on built charts *)

Section BuiltCharts.

Local Open Scope string_scope.

Lemma before_last_colon (a c b d : string) :
  colonFree b -> colonFree d ->
  a +:+ String ":"%char b = c +:+ String ":"%char d -> a = c.
Proof.
  intros Hb Hd. revert c. induction a as [| x a IH]; intros [| y c];
    rewrite ?append_empty, ?append_String; intros Heq.
  - reflexivity.
  - injection Heq as _ Heq. now destruct (Hb c d).
  - injection Heq as _ Heq. symmetry in Heq. now destruct (Hd a b).
  - injection Heq as -> Heq. f_equal. eauto.
Qed.

Lemma showZ_not_ASC (n : Z) : showZ n <> "ASC".
Proof.
  unfold showZ. destruct (Z.to_int n) as [d | d]; [| discriminate].
  destruct d; discriminate.
Qed.

Lemma planetKey_not_ascKey (n : Z) (h h' : HouseNumber) :
  planetKey (IdNum n) h <> ascKey h'.
Proof.
  intros Heq. apply (showZ_not_ASC n).
  apply (before_last_colon (showZ n) "ASC" (showZ h) (showZ h'));
    auto using colonFree_showZ.
Qed.

End BuiltCharts.

(** Where a recorded house comes from after the writes of [applyRule]. *)
Lemma trackPositions_origin (chart : ChartSnapshot) (m : gmap string HouseNumber)
    (key : string) (h : HouseNumber) :
  trackPositions chart m !! key = Some h ->
  m !! key = Some h
  \/ (exists cusps ascLon, houseCusps chart = Some cusps
        /\ getAngleLon chart "ASC" = Some ascLon
        /\ getHouseForLongitude ascLon cusps = Some h /\ key = ascKey h)
  \/ (exists planets p lon, planetLongitudes chart = Some planets
        /\ (p, lon) ∈ planets /\ key = planetKey p h).
Proof.
  unfold trackPositions.
  destruct (houseCusps chart) as [cusps |]; [| now left].
  set (m1 := match getAngleLon chart "ASC" with
             | Some ascLon =>
                 match getHouseForLongitude ascLon cusps with
                 | Some ascHouse => <[ascKey ascHouse := ascHouse]> m
                 | None => m
                 end
             | None => m
             end).
  assert (H1 : m1 !! key = Some h ->
    m !! key = Some h
    \/ (exists cusps0 ascLon, Some cusps = Some cusps0
          /\ getAngleLon chart "ASC" = Some ascLon
          /\ getHouseForLongitude ascLon cusps0 = Some h /\ key = ascKey h)).
  { unfold m1. destruct (getAngleLon chart "ASC") as [ascLon |]; [| now left].
    destruct (getHouseForLongitude ascLon cusps) as [ascHouse |] eqn:Hh; [| now left].
    destruct (decide (ascKey ascHouse = key)) as [<- | Hne].
    - rewrite lookup_insert_eq. intros [= <-]. right. now exists cusps, ascLon.
    - rewrite lookup_insert_ne by exact Hne. now left. }
  destruct (planetLongitudes chart) as [planets |]; [| intros H; specialize (H1 H); tauto].
  assert (Hgen : forall (l : list (Ident * Q)) m0,
    fold_left (trackPlanet cusps) l m0 !! key = Some h ->
    m0 !! key = Some h \/ exists p lon, (p, lon) ∈ l /\ key = planetKey p h).
  { induction l as [| e l IH]; intros m0; [now left |].
    cbn [fold_left]. intros Hl. apply IH in Hl as [Hl | [p [lon [Hin Hk]]]].
    - unfold trackPlanet in Hl.
      destruct (getHouseForLongitude (snd e) cusps) as [house0 |]; [| now left].
      destruct (decide (planetKey (fst e) house0 = key)) as [<- | Hne].
      + rewrite lookup_insert_eq in Hl. injection Hl as <-.
        right. exists (fst e), (snd e). split; [destruct e; left | reflexivity].
      + rewrite lookup_insert_ne in Hl by exact Hne. now left.
    - right. exists p, lon. split; [now right | exact Hk]. }
  intros Hl. apply Hgen in Hl as [Hl | [p [lon [Hin Hk]]]].
  - specialize (H1 Hl). tauto.
  - right. right. now exists planets, p, lon.
Qed.

(** The facts about a built chart that the engine relies on. *)
Lemma builtFromWellFormed_facts (chart : ChartSnapshot) :
  builtFromWellFormed chart ->
  (forall cusps ascLon, houseCusps chart = Some cusps ->
     getAngleLon chart "ASC" = Some ascLon ->
     getHouseForLongitude ascLon cusps = Some 1)
  /\ (forall planets p lon, planetLongitudes chart = Some planets ->
        (p, lon) ∈ planets -> exists n, p = IdNum n).
Proof.
  intros [renderData [-> Hwf]]. split.
  - intros cusps ascLon Hcusps Hasc.
    destruct (houses renderData) as [hs |] eqn:Hhs.
    + destruct (Hwf hs eq_refl) as [Hw Hd].
      now apply (built_asc_in_house_one renderData hs ascLon cusps Hhs Hw Hd).
    + unfold buildChartDataFromRenderData, getAngleLon in Hasc.
      cbn [angleLongitudes mbind option_bind] in Hasc. rewrite Hhs in Hasc.
      now rewrite lookup_empty in Hasc.
  - intros ps p lon Hps Hin.
    unfold buildChartDataFromRenderData in Hps. cbn [planetLongitudes] in Hps.
    injection Hps as <-.
    destruct (planets renderData) as [l |]; [| inversion Hin].
    apply elem_of_fold_alist_set in Hin as [Hnil | [x [_ [= -> _]]]]; [inversion Hnil |].
    now exists (planet x).
Qed.

Lemma evalStep_ascOnlyInHouseOne (locks : list LockRule) (chart : ChartSnapshot)
    (acc : EvalResult) (rule : OrientationRule) :
  builtFromWellFormed chart ->
  ascOnlyInHouseOne (out_state acc) ->
  ascOnlyInHouseOne (out_state (evalStep locks chart acc rule)).
Proof.
  intros Hbuilt Hinv. destruct (builtFromWellFormed_facts chart Hbuilt) as [Hasc Hnum].
  unfold evalStep.
  destruct (ruleTriggered rule chart (out_state acc)); [| exact Hinv].
  intros h v. unfold getPrevHouse. cbn. intros Hlook.
  apply trackPositions_origin in Hlook
    as [Hold | [[cusps [ascLon [Hc [Ha [Hh Hk]]]]] | [ps [p [lon [Hps [Hin Hk]]]]]]].
  - apply (Hinv h v). unfold getPrevHouse.
    destruct (previousHousePositions (out_state acc)); [exact Hold |].
    simpl in Hold. now rewrite lookup_empty in Hold.
  - rewrite (Hasc cusps ascLon Hc Ha) in Hh. injection Hh as <-.
    now apply (key_determines_house "ASC" "ASC").
  - destruct (Hnum ps p lon Hps Hin) as [n ->]. symmetry in Hk.
    now apply planetKey_not_ascKey in Hk.
Qed.

(** On a built chart, in a state that is well keyed and records the ASC in
    no house but house 1, no [ascLeavesHouse] trigger holds. *)
Lemma ascLeavesHouse_not_on_built_chart (rule : OrientationRule)
    (chart : ChartSnapshot) (state : OrientationRuntimeState) (target : HouseNumber) :
  builtFromWellFormed chart ->
  wellKeyed state -> ascOnlyInHouseOne state ->
  trigger rule = AscLeavesHouse target ->
  ruleTriggered rule chart state = false.
Proof.
  intros Hbuilt Hwk Hinv Ht.
  destruct (builtFromWellFormed_facts chart Hbuilt) as [Hasc _].
  destruct (getAngleLon chart "ASC") as [ascLon |] eqn:Ha;
    [| unfold ruleTriggered; now rewrite Ht, Ha].
  destruct (houseCusps chart) as [cusps |] eqn:Hc;
    [| unfold ruleTriggered; now rewrite Ht, Ha, Hc].
  destruct (ruleTriggered rule chart state) eqn:Hfire; [| reflexivity].
  apply (ascLeavesHouse_on_wellKeyed rule chart state target ascLon cusps Hwk Ht Ha Hc)
    in Hfire as [_ [Hcur Hprev]].
  rewrite (Hinv target target Hprev) in Hcur.
  now rewrite (Hasc cusps ascLon eq_refl eq_refl) in Hcur.
Qed.

Lemma evalOrientationProgram_built_invariant (program : OrientationProgram)
    (chart : ChartSnapshot) (previousState : option OrientationRuntimeState) :
  builtFromWellFormed chart ->
  wellKeyed (default emptyState previousState)
  /\ ascOnlyInHouseOne (default emptyState previousState) ->
  wellKeyed (out_state (evalOrientationProgram program chart previousState))
  /\ ascOnlyInHouseOne (out_state (evalOrientationProgram program chart previousState)).
Proof.
  intros Hbuilt Hinv. unfold evalOrientationProgram, evalLoop. cbn [out_state].
  apply (evalLoop_invariant _ chart (fun st => wellKeyed st /\ ascOnlyInHouseOne st));
    [| exact Hinv].
  intros acc rule [Hwk Hasc]. split.
  - now apply evalStep_wellKeyed.
  - now apply evalStep_ascOnlyInHouseOne.
Qed.

Lemma evalSequence_built_invariant (program : OrientationProgram)
    (charts : list ChartSnapshot) (previousState : option OrientationRuntimeState) :
  Forall builtFromWellFormed charts ->
  wellKeyed (default emptyState previousState)
  /\ ascOnlyInHouseOne (default emptyState previousState) ->
  wellKeyed (default emptyState (evalSequence program charts previousState))
  /\ ascOnlyInHouseOne (default emptyState (evalSequence program charts previousState)).
Proof.
  intros Hall. revert previousState.
  induction Hall as [| chart charts Hchart Hcharts IH]; intros previousState Hinv;
    [exact Hinv |].
  cbn [evalSequence fold_left]. apply IH. cbn [default from_option Datatypes.id].
  now apply evalOrientationProgram_built_invariant.
Qed.

(** X18: when every snapshot is a chart built by
    [buildChartDataFromRenderData] from well-formed houses (indices pairwise
    different and between 0 and 11, cusps pairwise different modulo 360) and
    the first evaluation starts without a previous state, no
    [ascLeavesHouse] rule ever fires: the builder sets the ASC to the cusp of
    house 1, so the house locator always finds the ASC in house 1. *)
Theorem ascLeavesHouse_never_fires_on_built_charts
    (program : OrientationProgram) (charts : list ChartSnapshot) (chart : ChartSnapshot)
    (i : nat) (rule : OrientationRule) (target : HouseNumber) :
  Forall builtFromWellFormed charts ->
  builtFromWellFormed chart ->
  default [] (rules program) !! i = Some rule ->
  trigger rule = AscLeavesHouse target ->
  firesAt program chart (evalSequence program charts None) i = false.
Proof.
  intros Hcharts Hchart Hi Ht. unfold firesAt. rewrite Hi.
  assert (Hempty : wellKeyed (default emptyState None)
                   /\ ascOnlyInHouseOne (default emptyState None)).
  { split; [exact wellKeyed_emptyState |].
    intros h v. unfold getPrevHouse. simpl. rewrite lookup_empty. discriminate. }
  pose proof (evalSequence_built_invariant program charts None Hcharts Hempty) as Hinv.
  assert (Hloop : wellKeyed (out_state (evalLoop program chart
                    (evalSequence program charts None)
                    (take i (default [] (rules program)))))
                  /\ ascOnlyInHouseOne (out_state (evalLoop program chart
                       (evalSequence program charts None)
                       (take i (default [] (rules program)))))).
  { unfold evalLoop.
    apply (evalLoop_invariant _ chart (fun st => wellKeyed st /\ ascOnlyInHouseOne st));
      [| exact Hinv].
    intros acc r [Hwk Hasc]. split.
    - now apply evalStep_wellKeyed.
    - now apply evalStep_ascOnlyInHouseOne. }
  destruct Hloop as [Hwk Hasc].
  now apply (ascLeavesHouse_not_on_built_chart rule chart _ target).
Qed.

Lemma renderTwelve_built :
  builtFromWellFormed (buildChartDataFromRenderData renderTwelve).
Proof.
  exists renderTwelve. split; [reflexivity |]. intros hs Hhs. split.
  - injection Hhs as <-. solve_wellFormedHouses.
  - now apply renderTwelve_distinct_cusps.
Defined.

Lemma renderShifted_built :
  builtFromWellFormed (buildChartDataFromRenderData renderShifted).
Proof.
  exists renderShifted. split; [reflexivity |]. intros hs [= <-]. split.
  - solve_wellFormedHouses.
  - intros x y Hx Hy. solve_distinct_cusps Hx Hy.
Defined.

Lemma ascLeavesHouse_never_fires_on_built_charts_witness :
  firesAt programBuilt (buildChartDataFromRenderData renderTwelve) None 0 = true
  /\ firesAt programBuilt (buildChartDataFromRenderData renderShifted)
       (evalSequence programBuilt [buildChartDataFromRenderData renderTwelve] None) 1
     = false
  /\ firesAt programBuilt (buildChartDataFromRenderData renderShifted)
       (evalSequence programBuilt [buildChartDataFromRenderData renderTwelve] None) 2
     = false.
Proof.
  split; [vm_compute; exact eq_refl |]. split.
  - apply (ascLeavesHouse_never_fires_on_built_charts programBuilt
             [buildChartDataFromRenderData renderTwelve]
             (buildChartDataFromRenderData renderShifted) 1 ruleAscLeaves1 1).
    + apply Forall_cons; split; [exact renderTwelve_built | apply Forall_nil_2].
    + exact renderShifted_built.
    + reflexivity.
    + reflexivity.
  - apply (ascLeavesHouse_never_fires_on_built_charts programBuilt
             [buildChartDataFromRenderData renderTwelve]
             (buildChartDataFromRenderData renderShifted) 2 ruleAscLeaves2 2).
    + apply Forall_cons; split; [exact renderTwelve_built | apply Forall_nil_2].
    + exact renderShifted_built.
    + reflexivity.
    + reflexivity.
Defined.

(** ** The recorded positions after an evaluation *)

Section Writes.

Lemma trackPositions_writes (chart : ChartSnapshot) (m : gmap string HouseNumber) :
  trackPositions chart m = fold_left insertWrite (positionWrites chart) m.
Proof.
  unfold trackPositions, positionWrites.
  destruct (houseCusps chart) as [cusps |]; [| reflexivity].
  rewrite fold_left_app.
  set (m1 := fold_left insertWrite _ m).
  assert (Hm1 : match getAngleLon chart "ASC" with
                | Some ascLon =>
                    match getHouseForLongitude ascLon cusps with
                    | Some ascHouse => <[ascKey ascHouse := ascHouse]> m
                    | None => m
                    end
                | None => m
                end = m1).
  { unfold m1. destruct (getAngleLon chart "ASC") as [ascLon |]; [| reflexivity].
    destruct (getHouseForLongitude ascLon cusps); reflexivity. }
  rewrite Hm1. clear Hm1. generalize m1. clear m1.
  destruct (planetLongitudes chart) as [planets |]; [| reflexivity].
  induction planets as [| e planets IH]; intros m1; [reflexivity |].
  cbn [fold_left]. rewrite IH. cbn [omap list_omap]. unfold trackPlanet.
  destruct (getHouseForLongitude (snd e) cusps); reflexivity.
Qed.

(** After a run of writes a key holds the value of its last write, or what
    it held before when nothing was written to it. *)
Lemma fold_write_lookup (ws : list (string * HouseNumber)) :
  exists last : string -> option HouseNumber,
    forall m k, fold_left insertWrite ws m !! k = match last k with
                                           | Some v => Some v
                                           | None => m !! k
                                           end.
Proof.
  induction ws as [| [k0 v0] ws IH] using rev_ind.
  - exists (fun _ => None). reflexivity.
  - destruct IH as [last Hlast].
    exists (fun k => if decide (k0 = k) then Some v0 else last k).
    intros m k. rewrite fold_left_app. cbn [fold_left]. unfold insertWrite at 1. cbn [fst snd].
    destruct (decide (k0 = k)) as [-> | Hne].
    + apply lookup_insert_eq.
    + rewrite lookup_insert_ne by exact Hne. apply Hlast.
Qed.

(** Recording the positions of a snapshot twice is recording them once. *)
Lemma trackPositions_idempotent (chart : ChartSnapshot) (m : gmap string HouseNumber) :
  trackPositions chart (trackPositions chart m) = trackPositions chart m.
Proof.
  rewrite !trackPositions_writes.
  destruct (fold_write_lookup (positionWrites chart)) as [last Hlast].
  apply map_eq. intros k. rewrite (Hlast (fold_left insertWrite (positionWrites chart) m) k).
  rewrite (Hlast m k). destruct (last k); reflexivity.
Qed.

End Writes.

Lemma evalLoop_positions (locks : list LockRule) (chart : ChartSnapshot)
    (rs : list OrientationRule) (acc : EvalResult) :
  match firedRules locks chart acc rs with
  | [] => out_state (fold_left (evalStep locks chart) rs acc) = out_state acc
  | _ :: _ =>
      previousHousePositions (out_state (fold_left (evalStep locks chart) rs acc))
      = Some (trackPositions chart (default ∅ (previousHousePositions (out_state acc))))
  end.
Proof.
  revert acc. induction rs as [| rule rs IH]; intros acc; [reflexivity |].
  cbn [fold_left firedRules].
  destruct (ruleTriggered rule chart (out_state acc)) eqn:Hfire.
  - specialize (IH (evalStep locks chart acc rule)).
    assert (Hstep : previousHousePositions (out_state (evalStep locks chart acc rule))
                    = Some (trackPositions chart
                              (default ∅ (previousHousePositions (out_state acc)))))
      by (unfold evalStep; now rewrite Hfire).
    destruct (firedRules locks chart (evalStep locks chart acc rule) rs).
    + now rewrite IH.
    + rewrite IH, Hstep. cbn [default from_option Datatypes.id].
      now rewrite trackPositions_idempotent.
  - assert (Hstep : evalStep locks chart acc rule = acc)
      by (unfold evalStep; now rewrite Hfire).
    rewrite Hstep. apply IH.
Qed.

(** X19: when at least one rule fires in an evaluation, the recorded
    positions of the returned state are those of the previous state
    overwritten with the current house of the ASC and of every planet of the
    snapshot, however many rules fired; the positions are recorded only in
    evaluations in which a rule fires. *)
Theorem evalOrientationProgram_positions
    (program : OrientationProgram) (chart : ChartSnapshot)
    (previousState : option OrientationRuntimeState) :
  firedIn program chart previousState <> [] ->
  previousHousePositions (out_state (evalOrientationProgram program chart previousState))
  = Some (trackPositions chart
            (default ∅ (previousHousePositions (default emptyState previousState)))).
Proof.
  intros Hfired. unfold evalOrientationProgram, evalLoop. cbn [out_state].
  unfold firedIn in Hfired.
  pose proof (evalLoop_positions (default [] (locks program)) chart
                (default [] (rules program))
                {| out_frame := baseFrame program; out_locks := [];
                   out_state := default emptyState previousState |}) as Hpos.
  destruct (firedRules _ chart _ _); [congruence | exact Hpos].
Qed.

Lemma evalOrientationProgram_positions_witness :
  previousHousePositions
    (out_state (evalOrientationProgram programAll (chartEven 45 40)
                  (Some (stateAscRecorded 1))))
  = Some (trackPositions (chartEven 45 40) {[ "ASC:1" := 1 ]}).
Proof.
  apply (evalOrientationProgram_positions programAll (chartEven 45 40)
           (Some (stateAscRecorded 1))).
  vm_compute. discriminate.
Defined.

(** ** Effects, continued *)

(** X20: two rotations in a row turn the zero point of a frame as one
    rotation by the sum of the two deltas does: the rotated field is the
    same one and its values agree as rationals; the other zero point is left
    as it was. *)
Theorem applyRule_rotate_twice
    (r1 r2 r12 : OrientationRule) (F : ViewFrame) (locks : list LockRule)
    (chart : ChartSnapshot) (s1 s2 s12 : OrientationRuntimeState) (d1 d2 : Q) :
  effect r1 = Rotate d1 ->
  effect r2 = Rotate d2 ->
  effect r12 = Rotate (d1 + d2) ->
  let F2 := res_frame (applyRule r2 (res_frame (applyRule r1 F locks chart s1))
                         locks chart s2) in
  let F12 := res_frame (applyRule r12 F locks chart s12) in
  match worldZero F, screenZero F with
  | Some _, Some _ =>
      screenAngleDeg F2 = screenAngleDeg F12
      /\ exists z2 z12, screenZero F2 = Some z2 /\ screenZero F12 = Some z12
                        /\ (z2 == z12)%Q
  | _, _ =>
      screenZero F2 = screenZero F12
      /\ (screenAngleDeg F2 == screenAngleDeg F12)%Q
  end.
Proof.
  intros H1 H2 H12. cbv zeta. unfold applyRule. cbn [res_frame].
  rewrite H1, H2, H12.
  assert (Hsum : forall x, (normalizeDeg (normalizeDeg (x + d1) + d2)
                            == normalizeDeg (x + (d1 + d2)))%Q).
  { intros x. rewrite normalizeDeg_idem_add. apply normalizeDeg_comp. lra. }
  destruct F as [a sa d [wz |] [sz |]]; cbn; (split; [reflexivity |]); try apply Hsum.
  eexists _, _. split; [reflexivity |]. split; [reflexivity |]. apply Hsum.
Qed.

Lemma applyRule_rotate_twice_witness :
  let F2 := res_frame (applyRule ruleMarsAsc
              (res_frame (applyRule ruleMarsEnters2 frameNewModel [] chartNoData emptyState))
              [] chartNoData emptyState) in
  let F12 := res_frame (applyRule ruleSixty frameNewModel [] chartNoData emptyState) in
  screenAngleDeg F2 = screenAngleDeg F12
  /\ exists z2 z12, screenZero F2 = Some z2 /\ screenZero F12 = Some z12 /\ (z2 == z12)%Q.
Proof.
  exact (applyRule_rotate_twice ruleMarsEnters2 ruleMarsAsc ruleSixty frameNewModel []
           chartNoData emptyState emptyState emptyState 30 30 eq_refl eq_refl eq_refl).
Defined.

(** X21: after a mirror effect the direction of the frame is of the frame's
    own encoding (1 or -1 for the new model, cw or ccw for the legacy model);
    on a frame whose direction already is of its own encoding, two mirror
    effects in a row give the frame back. *)
Theorem applyRule_mirror_twice
    (r1 r2 : OrientationRule) (F : ViewFrame) (locks : list LockRule)
    (chart : ChartSnapshot) (s1 s2 : OrientationRuntimeState) :
  effect r1 = Mirror ->
  effect r2 = Mirror ->
  let ownEncoding (f : ViewFrame) :=
    if newModel f then direction f = DirPlus \/ direction f = DirMinus
    else direction f = DirCw \/ direction f = DirCcw in
  let F1 := res_frame (applyRule r1 F locks chart s1) in
  let F2 := res_frame (applyRule r2 F1 locks chart s2) in
  ownEncoding F1 /\ (ownEncoding F -> F2 = F).
Proof.
  intros H1 H2. cbv zeta. unfold applyRule. cbn [res_frame]. rewrite H1, H2.
  destruct F as [a sa d [wz |] [sz |]]; destruct d; cbn;
    (split; [tauto |]); intros [Hd | Hd]; try discriminate; reflexivity.
Qed.

Lemma applyRule_mirror_twice_witness :
  res_frame (applyRule ruleCustom
    (res_frame (applyRule ruleAscLeaves1 frameAscLeft [] chartNoData emptyState))
    [] chartNoData emptyState) = frameAscLeft.
Proof.
  apply (proj2 (applyRule_mirror_twice ruleAscLeaves1 ruleCustom frameAscLeft []
                  chartNoData emptyState emptyState eq_refl eq_refl)).
  right. reflexivity.
Defined.

(** ** Screen angles, continued *)

(** X22: with an anchor that cannot be resolved, the screen angle is the
    frame's screen angle minus the world longitude, modulo 360: the fallback
    runs against the longitudes, reads neither the direction nor the zero
    points of the frame, and has period 360 in the world longitude. *)
Theorem convertToScreenAngle_fallback_reflection
    (getAnchorLongitude : AnchorTargetUnion -> AnchorLongitudeResolver -> option Q)
    (worldToScreenAngle : Q -> ViewFrame -> Q -> Q)
    (W : Q) (k : Z) (viewFrame : ViewFrame) (chartData : ChartDataForOrientation) :
  getAnchorLongitude (anchor viewFrame) (createAnchorResolver chartData) = None ->
  let convert w :=
    convertToScreenAngle getAnchorLongitude worldToScreenAngle w viewFrame chartData in
  (convert W == normalizeDeg (screenAngleDeg viewFrame - W))%Q
  /\ (convert (W + 360 * inject_Z k) == convert W)%Q.
Proof.
  intros Hnone. cbv zeta. unfold convertToScreenAngle. rewrite Hnone. cbv zeta.
  unfold normalizeAngle. split.
  - apply normalizeDeg_comp. lra.
  - rewrite <- (normalizeDeg_period (180 - W + (screenAngleDeg viewFrame - 180)) (- k)).
    apply normalizeDeg_comp. rewrite inject_Z_opp. lra.
Qed.

Lemma convertToScreenAngle_fallback_reflection_witness :
  let convert w :=
    convertToScreenAngle getAnchorLongitudeByKind (fun w _ _ => w) w
      frameAscLeft chartNoData in
  (convert 10 == normalizeDeg (screenAngleDeg frameAscLeft - 10))%Q
  /\ (convert (10 + 360 * inject_Z 2) == convert 10)%Q.
Proof.
  exact (convertToScreenAngle_fallback_reflection getAnchorLongitudeByKind
           (fun w _ _ => w) 10 2 frameAscLeft chartNoData eq_refl).
Defined.

(** ** The orb test, continued *)

Lemma angularDistance_sym (a b : Q) : angularDistance a b = angularDistance b a.
Proof. unfold angularDistance. now rewrite Qabs_Qminus. Qed.

(** X23: the orb test of [planetCrossesAngle] is symmetric in the two
    longitudes and reads each of them only modulo 360. *)
Theorem withinOrb_symmetric_periodic (P A : Q) (k : Z) :
  withinOrb P A = withinOrb A P
  /\ withinOrb (P + 360 * inject_Z k) A = withinOrb P A.
Proof.
  split.
  - destruct (withinOrb P A) eqn:H1; destruct (withinOrb A P) eqn:H2; try reflexivity.
    + apply withinOrb_angularDistance in H1. rewrite angularDistance_sym in H1.
      apply withinOrb_angularDistance in H1. congruence.
    + apply withinOrb_angularDistance in H2. rewrite angularDistance_sym in H2.
      apply withinOrb_angularDistance in H2. congruence.
  - unfold withinOrb. cbv zeta.
    assert (Heq : (normalizeDeg (P + 360 * inject_Z k - A) == normalizeDeg (P - A))%Q).
    { rewrite <- (normalizeDeg_period (P - A) k). apply normalizeDeg_comp. lra. }
    assert (Hmin : (Qmin (Qabs (normalizeDeg (P + 360 * inject_Z k - A)))
                      (360 - Qabs (normalizeDeg (P + 360 * inject_Z k - A)))
                    == Qmin (Qabs (normalizeDeg (P - A)))
                         (360 - Qabs (normalizeDeg (P - A))))%Q)
      by (now rewrite Heq).
    destruct (Qle_bool (Qmin (Qabs (normalizeDeg (P + 360 * inject_Z k - A))) _) 1) eqn:H1;
      destruct (Qle_bool (Qmin (Qabs (normalizeDeg (P - A))) _) 1) eqn:H2;
      try reflexivity.
    + apply Qle_bool_iff in H1. rewrite Hmin in H1. apply Qle_bool_iff in H1. congruence.
    + apply Qle_bool_iff in H2. rewrite <- Hmin in H2. apply Qle_bool_iff in H2. congruence.
Qed.

(** ** Rule order within one evaluation *)

(** X24: when the last rule that fires in an evaluation has the effect
    [setViewFrame], the returned frame is the frame of that effect, whatever
    the base frame and the effects of the rules before it. *)
Theorem evalOrientationProgram_setViewFrame_last
    (program : OrientationProgram) (chart : ChartSnapshot)
    (previousState : option OrientationRuntimeState)
    (before : list OrientationRule) (rule : OrientationRule) (viewFrame : ViewFrame) :
  firedIn program chart previousState = before ++ [rule] ->
  effect rule = SetViewFrame viewFrame ->
  out_frame (evalOrientationProgram program chart previousState) = viewFrame.
Proof.
  intros Hfired Heff. unfold evalOrientationProgram, evalLoop. cbn [out_frame].
  destruct (evalLoop_firedRules (default [] (locks program)) chart
              (default [] (rules program))
              {| out_frame := baseFrame program; out_locks := [];
                 out_state := default emptyState previousState |}) as [Hf _].
  cbv zeta in Hf. rewrite Hf. unfold firedIn in Hfired. rewrite Hfired.
  rewrite fold_left_app. cbn [fold_left]. now rewrite Heff.
Qed.

Lemma evalOrientationProgram_setViewFrame_last_witness :
  out_frame (evalOrientationProgram programSetFrame (chartMarsAt 11) None) = frameNewModel.
Proof.
  apply (evalOrientationProgram_setViewFrame_last programSetFrame (chartMarsAt 11) None
           [ruleMarsAsc] ruleSetFrame frameNewModel); [vm_compute | ]; reflexivity.
Defined.

Lemma planetsRecorded_applyRule (rule : OrientationRule) (frame0 : ViewFrame)
    (locks : list LockRule) (chart : ChartSnapshot) (state : OrientationRuntimeState) :
  planetsRecorded chart (res_newState (applyRule rule frame0 locks chart state)).
Proof.
  intros p lon cusps h Hlon Hcusps Hh. unfold getPrevHouse. simpl.
  now apply (trackPositions_records_planet chart cusps p lon).
Qed.

Lemma planetsRecorded_evalStep (locks : list LockRule) (chart chart' : ChartSnapshot)
    (acc : EvalResult) (rule : OrientationRule) :
  planetsRecorded chart (out_state acc) ->
  planetsRecorded chart (out_state (evalStep locks chart' acc rule)).
Proof.
  intros Hrec p lon cusps h Hlon Hcusps Hh.
  apply evalStep_recorded. now apply (Hrec p lon cusps h).
Qed.

Lemma planetsRecorded_not_triggered (chart : ChartSnapshot)
    (state : OrientationRuntimeState) (rule : OrientationRule)
    (p : Ident) (h : HouseNumber) :
  planetsRecorded chart state ->
  trigger rule = PlanetCrossesHouse p h ->
  ruleTriggered rule chart state = false.
Proof.
  intros Hrec Ht. unfold ruleTriggered. rewrite Ht.
  destruct (getPlanetLon chart p) as [lon |] eqn:Hlon; [| reflexivity].
  destruct (houseCusps chart) as [cusps |] eqn:Hcusps; [| reflexivity].
  cbv zeta. unfold strictEq at 1.
  destruct (bool_decide (getHouseForLongitude lon cusps = Some h)) eqn:Hcur;
    [| reflexivity].
  apply bool_decide_eq_true_1 in Hcur.
  rewrite (Hrec p lon cusps h Hlon Hcusps Hcur). unfold strictEq.
  now rewrite (bool_decide_eq_true_2 (Some h = Some h) eq_refl).
Qed.

(** X25: within one evaluation, once a rule has fired, no
    [planetCrossesHouse] rule after it fires: the first rule that fires
    records the current house of every planet, and the later triggers are
    evaluated against the state so updated. *)
Theorem planetCrossesHouse_after_a_fired_rule
    (program : OrientationProgram) (chart : ChartSnapshot)
    (previousState : option OrientationRuntimeState)
    (i j : nat) (rule : OrientationRule) (p : Ident) (h : HouseNumber) :
  (i < j)%nat ->
  firesAt program chart previousState i = true ->
  default [] (rules program) !! j = Some rule ->
  trigger rule = PlanetCrossesHouse p h ->
  firesAt program chart previousState j = false.
Proof.
  intros Hij Hfire Hj Ht. unfold firesAt in *. rewrite Hj.
  set (rs := default [] (rules program)) in *.
  destruct (rs !! i) as [ri |] eqn:Hi; [| discriminate].
  assert (Hti : take j rs !! i = Some ri) by (rewrite lookup_take_lt by exact Hij; exact Hi).
  rewrite (evalLoop_split program chart previousState (take j rs) i ri Hti).
  rewrite take_take, Nat.min_l by lia.
  apply (planetsRecorded_not_triggered chart _ rule p h); [| exact Ht].
  apply (evalLoop_invariant _ chart (planetsRecorded chart)).
  - intros acc r. apply planetsRecorded_evalStep.
  - unfold evalStep. rewrite Hfire. cbn [out_state]. apply planetsRecorded_applyRule.
Qed.

Lemma planetCrossesHouse_after_a_fired_rule_witness :
  firesAt programTwoEntries chartTwoPlanets None 0 = true
  /\ firesAt programTwoEntries chartTwoPlanets None 1 = false.
Proof.
  split; [vm_compute; exact eq_refl |].
  apply (planetCrossesHouse_after_a_fired_rule programTwoEntries chartTwoPlanets None
           0 1 ruleSevenEnters4 (IdNum 7) 4); [lia | vm_compute | | ]; reflexivity.
Defined.

(** X26: whenever a rule fires in an evaluation while planet [p] is in house
    [h], a [planetCrossesHouse{p, h}] rule does not fire in any later
    evaluation that starts from the carried-forward state, whatever the
    later snapshots: the entry is recorded although that rule may never have
    fired. *)
Theorem planetCrossesHouse_disabled_by_any_fired_rule
    (program : OrientationProgram) (chart : ChartSnapshot)
    (previousState : option OrientationRuntimeState)
    (i : nat) (p : Ident) (lon : Q) (cusps : list (HouseNumber * Q)) (h : HouseNumber)
    (later : list ChartSnapshot) (chart' : ChartSnapshot)
    (j : nat) (rule : OrientationRule) :
  firesAt program chart previousState i = true ->
  getPlanetLon chart p = Some lon ->
  houseCusps chart = Some cusps ->
  getHouseForLongitude lon cusps = Some h ->
  default [] (rules program) !! j = Some rule ->
  trigger rule = PlanetCrossesHouse p h ->
  firesAt program chart' (evalSequence program (chart :: later) previousState) j = false.
Proof.
  intros Hfire Hlon Hcusps Hh Hj Ht.
  assert (Hb : forall st, getPrevHouse st (planetKey p h) = Some h -> firedBefore rule st)
    by (intros st Hst; unfold firedBefore; now rewrite Ht).
  assert (H1 : firedBefore rule
                 (out_state (evalOrientationProgram program chart previousState))).
  { apply Hb. unfold evalOrientationProgram. cbn [out_state].
    unfold firesAt in Hfire.
    destruct (default [] (rules program) !! i) as [ri |] eqn:Hi; [| discriminate].
    rewrite (evalLoop_split program chart previousState _ i ri Hi).
    apply (evalLoop_invariant _ chart
             (fun st => getPrevHouse st (planetKey p h) = Some h)).
    - intros acc r. apply evalStep_recorded.
    - unfold evalStep. rewrite Hfire. cbn [out_state].
      now apply (planetsRecorded_applyRule ri _ _ chart _ p lon cusps h). }
  cbn [evalSequence fold_left].
  destruct (evalSequence_firedBefore rule program later _ H1) as [state' [Hseq Hb']].
  unfold evalSequence in Hseq. rewrite Hseq.
  unfold firesAt. rewrite Hj. apply firedBefore_not_triggered.
  unfold evalLoop. now apply firedBefore_evalLoop.
Qed.

Lemma planetCrossesHouse_disabled_by_any_fired_rule_witness :
  firesAt programTwoEntries chartTwoPlanets
    (evalSequence programTwoEntries [chartTwoPlanets; chartEven 15 40] None) 1 = false.
Proof.
  apply (planetCrossesHouse_disabled_by_any_fired_rule programTwoEntries chartTwoPlanets
           None 0 (IdNum 7) 100 evenCusps 4 [chartEven 15 40] chartTwoPlanets
           1 ruleSevenEnters4);
    [vm_compute | reflexivity | reflexivity | vm_compute | reflexivity | reflexivity];
    reflexivity.
Defined.
